(** * AppFuse: the FUSE request loop of MtpDocumentsProvider

    A shallow embedding of
    [packages/MtpDocumentsProvider/jni/com_android_mtp_AppFuse.cpp]:
    the handle table, the eight operation handlers, the reply framing
    and the read/dispatch loop, with the C++ integer conversions written
    out, followed by the properties of the specification. *)

From Stdlib Require Import ZArith Lia String Ascii.
From Stdlib.Strings Require Import Byte.
From stdpp Require Import gmap list.

Local Open Scope Z_scope.

(** ** Machine integers

    Every C++ integer is a [Z]; a conversion to a fixed-width type is the
    wrap-around it performs on the Android targets (two's complement). *)

Definition to_uint16 (z : Z) : Z := z mod 2 ^ 16.
Definition to_uint32 (z : Z) : Z := z mod 2 ^ 32.
Definition to_uint64 (z : Z) : Z := z mod 2 ^ 64.
Definition to_int32 (z : Z) : Z := (z + 2 ^ 31) mod 2 ^ 32 - 2 ^ 31.
Definition to_int64 (z : Z) : Z := (z + 2 ^ 63) mod 2 ^ 64 - 2 ^ 63.

(** [size_t] is 64 bits wide on LP64 Android. *)
Definition to_size_t (z : Z) : Z := to_uint64 z.

(** ** Constants *)

(** From [<errno.h>]. *)
Definition ENOENT : Z := 2.
Definition EINTR : Z := 4.
Definition EIO : Z := 5.
Definition EBADF : Z := 9.
Definition ENODEV : Z := 19.
Definition EINVAL : Z := 22.
Definition EMFILE : Z := 24.
Definition ENOSYS : Z := 38.

(** From [<sys/stat.h>]. *)
Definition S_IFDIR : Z := 0x4000.   (* 0040000 *)
Definition S_IFREG : Z := 0x8000.   (* 0100000 *)

(** From [<linux/fuse.h>] (protocol 7.23 headers, the ones that define
    [FUSE_COMPAT_22_INIT_OUT_SIZE]). *)
Module LinuxFuse.
Definition FUSE_KERNEL_VERSION : Z := 7.

Definition FUSE_LOOKUP : Z := 1.
Definition FUSE_FORGET : Z := 2.
Definition FUSE_GETATTR : Z := 3.
Definition FUSE_OPEN : Z := 14.
Definition FUSE_READ : Z := 15.
Definition FUSE_RELEASE : Z := 18.
Definition FUSE_FLUSH : Z := 25.
Definition FUSE_INIT : Z := 26.

Definition FUSE_ATOMIC_O_TRUNC : Z := Z.shiftl 1 3.
Definition FUSE_BIG_WRITES : Z := Z.shiftl 1 5.

Definition sizeof_fuse_in_header : Z := 40.
Definition sizeof_fuse_out_header : Z := 16.
Definition sizeof_fuse_write_in : Z := 40.
Definition sizeof_fuse_entry_out : Z := 128.
Definition sizeof_fuse_attr_out : Z := 104.
Definition sizeof_fuse_open_out : Z := 16.
Definition sizeof_fuse_init_out : Z := 64.
Definition FUSE_COMPAT_22_INIT_OUT_SIZE : Z := 24.
End LinuxFuse.
Export LinuxFuse.

(** Maximum number of bytes to write/read in one request/one reply. *)
Definition MAX_WRITE : Z := 256 * 1024.
Definition MAX_READ : Z := 128 * 1024.

Definition NUM_MAX_HANDLES : Z := 1024.

(** Largest possible request. *)
Definition MAX_REQUEST_SIZE : Z :=
  sizeof_fuse_in_header + sizeof_fuse_write_in +
  (if MAX_WRITE >? MAX_READ then MAX_WRITE else MAX_READ).

(** ** The request buffer and its typed views

    [FuseRequest] is a [char] array; [header()] and the [static_cast]s of
    [data()] reinterpret its bytes.  Fields are host-endian, which is
    little-endian here.  A byte the list does not hold reads as zero. *)

Definition byte_at (buf : list byte) (i : nat) : Z :=
  Z.of_N (Byte.to_N (default x00 (buf !! i))).

Fixpoint load_le (width : nat) (buf : list byte) (off : nat) : Z :=
  match width with
  | O => 0
  | S k => byte_at buf off + 256 * load_le k buf (S off)
  end.

Definition load_u32 := load_le 4.
Definition load_u64 := load_le 8.

Record fuse_in_header := {
  ih_len : Z;      (* uint32_t *)
  ih_opcode : Z;   (* uint32_t *)
  ih_unique : Z;   (* uint64_t *)
  ih_nodeid : Z;   (* uint64_t *)
  ih_uid : Z;
  ih_gid : Z;
  ih_pid : Z
}.

Record fuse_init_in := {
  ii_major : Z;          (* uint32_t *)
  ii_minor : Z;          (* uint32_t *)
  ii_max_readahead : Z;  (* uint32_t *)
  ii_flags : Z
}.

Record fuse_read_in := {
  ri_fh : Z;      (* uint64_t *)
  ri_offset : Z;  (* uint64_t *)
  ri_size : Z     (* uint32_t *)
}.

Record fuse_release_in := {
  li_fh : Z       (* uint64_t *)
}.

Record FuseRequest := { buffer : list byte }.

Definition header (req : FuseRequest) : fuse_in_header :=
  let b := buffer req in
  {| ih_len := load_u32 b 0; ih_opcode := load_u32 b 4;
     ih_unique := load_u64 b 8; ih_nodeid := load_u64 b 16;
     ih_uid := load_u32 b 24; ih_gid := load_u32 b 28;
     ih_pid := load_u32 b 32 |}.

Definition data (req : FuseRequest) : list byte :=
  drop (Z.to_nat sizeof_fuse_in_header) (buffer req).

Definition data_length (req : FuseRequest) : Z :=
  to_size_t (ih_len (header req) - sizeof_fuse_in_header).

Definition as_fuse_init_in (d : list byte) : fuse_init_in :=
  {| ii_major := load_u32 d 0; ii_minor := load_u32 d 4;
     ii_max_readahead := load_u32 d 8; ii_flags := load_u32 d 12 |}.

Definition as_fuse_read_in (d : list byte) : fuse_read_in :=
  {| ri_fh := load_u64 d 0; ri_offset := load_u64 d 8;
     ri_size := load_u32 d 16 |}.

Definition as_fuse_release_in (d : list byte) : fuse_release_in :=
  {| li_fh := load_u64 d 0 |}.

(** [const char*]: the character codes up to the terminating NUL. *)
Fixpoint as_c_string (d : list byte) : list Z :=
  match d with
  | [] => []
  | b :: r =>
      let c := Z.of_N (Byte.to_N b) in
      if c =? 0 then [] else c :: as_c_string r
  end.

(** ** [atoi]

    bionic's [atoi(s)] is [(int) strtol(s, NULL, 10)].  [strtol] skips
    leading white space, takes an optional sign, then decimal digits up to
    the first other character; no digits give 0.  Its result is a [long],
    64 bits wide here: a value beyond [long] is replaced by [LONG_MAX] or
    [LONG_MIN].  The conversion to [int] keeps the low 32 bits. *)

Definition LONG_MAX : Z := 2 ^ 63 - 1.
Definition LONG_MIN : Z := - 2 ^ 63.

Definition isspace (c : Z) : bool := (c =? 32) || ((9 <=? c) && (c <=? 13)).
Definition isdigit (c : Z) : bool := (48 <=? c) && (c <=? 57).

Fixpoint skip_space (s : list Z) : list Z :=
  match s with
  | c :: r => if isspace c then skip_space r else s
  | [] => []
  end.

Fixpoint digits (acc : Z) (s : list Z) : Z :=
  match s with
  | c :: r => if isdigit c then digits (acc * 10 + (c - 48)) r else acc
  | [] => acc
  end.

(** The integer the string starts with, whatever its size. *)
Definition leading_integer (s : list Z) : Z :=
  match skip_space s with
  | c :: r =>
      if c =? 45 then - digits 0 r
      else if c =? 43 then digits 0 r
      else digits 0 (c :: r)
  | [] => 0
  end.

(** [strtol(s, NULL, 10)]: that integer, kept within [long]. *)
Definition strtol (s : list Z) : Z :=
  Z.max LONG_MIN (Z.min LONG_MAX (leading_integer s)).

Definition atoi (s : list Z) : Z := to_int32 (strtol s).

(** ** Reply structures

    Only the fields the handlers assign are kept; [prepare_buffer] zeroes
    the others and nothing sets them afterwards. *)

Record fuse_attr := {
  a_ino : Z;   (* uint64_t *)
  a_size : Z;  (* uint64_t *)
  a_mode : Z   (* uint32_t *)
}.

Record fuse_entry_out := {
  eo_nodeid : Z;       (* uint64_t *)
  eo_entry_valid : Z;  (* uint64_t *)
  eo_attr_valid : Z;   (* uint64_t *)
  eo_attr : fuse_attr
}.

Record fuse_attr_out := {
  ao_attr_valid : Z;   (* uint64_t *)
  ao_attr : fuse_attr
}.

Record fuse_open_out := {
  oo_fh : Z            (* uint64_t *)
}.

Record fuse_init_out := {
  io_major : Z;                 (* uint32_t *)
  io_minor : Z;                 (* uint32_t *)
  io_max_readahead : Z;         (* uint32_t *)
  io_flags : Z;                 (* uint32_t *)
  io_max_background : Z;        (* uint16_t *)
  io_congestion_threshold : Z;  (* uint16_t *)
  io_max_write : Z              (* uint32_t *)
}.

Record fuse_out_header := {
  oh_len : Z;     (* uint32_t *)
  oh_error : Z;   (* int32_t *)
  oh_unique : Z   (* uint64_t *)
}.

Definition zero_attr : fuse_attr := {| a_ino := 0; a_size := 0; a_mode := 0 |}.

(** What the region at [request->data()] holds once a handler is done:
    still the request bytes, or the structure or bytes written there. *)
Inductive ReplyData :=
| RequestBytes
| EntryOut (e : fuse_entry_out)
| InitOut (i : fuse_init_out)
| AttrOut (a : fuse_attr_out)
| OpenOut (o : fuse_open_out)
| ReadBytes (bs : list byte).

Record FuseResponse := { size_ : Z; buffer_ : ReplyData }.

(** [FuseResponse(void* buffer) : size_(0), buffer_(buffer)] *)
Definition new_response : FuseResponse :=
  {| size_ := 0; buffer_ := RequestBytes |}.

(** [prepare_buffer(size)]: zero the region, then the handler fills in
    [zeroed]'s fields. *)
Definition prepare_buffer (size : Z) (zeroed : ReplyData) (_ : FuseResponse)
  : FuseResponse :=
  {| size_ := size; buffer_ := zeroed |}.

Definition set_size (size : Z) (r : FuseResponse) : FuseResponse :=
  {| size_ := size; buffer_ := buffer_ r |}.

Definition set_data (d : ReplyData) (r : FuseResponse) : FuseResponse :=
  {| size_ := size_ r; buffer_ := d |}.

(** ** The content provider

    The Java object behind [self_], reached through [getFileSize] and
    [getObjectBytes] ([(I)J] and [(IJI)[B]).  It may hold state of its
    own, so each upcall returns the provider's next state; a [null] array
    is [None]. *)

Class ContentProvider (P : Type) := {
  getFileSize : Z -> P -> Z * P;
  getObjectBytes : Z -> Z -> Z -> P -> option (list byte) * P
}.

(** ** Observable events: upcalls and writes to the device *)

Inductive iov_base_t :=
| AtHeader (hdr : fuse_out_header)
| AtData (d : ReplyData)
| AtNull.

Record iovec := { iov_base : iov_base_t; iov_len : Z }.

Inductive Event :=
| CallGetFileSize (inode : Z)
| CallGetObjectBytes (inode offset size : Z)
| Writev (vec : list iovec).

(** ** Session state *)

(** Map between file handle and inode, and the handle counter. *)
Record AppFuse := {
  handles_ : gmap Z Z;     (* std::map<uint32_t, uint64_t> *)
  handle_counter_ : Z      (* uint32_t *)
}.

(** [AppFuse(env, self) : env_(env), self_(self), handle_counter_(0)] *)
Definition new_AppFuse : AppFuse := {| handles_ := ∅; handle_counter_ := 0 |}.

Record World (P : Type) := {
  app : AppFuse;        (* the [AppFuse] object *)
  java : P;             (* the provider's state *)
  trace : list Event    (* what has happened so far, oldest first *)
}.
Arguments app {P} _.
Arguments java {P} _.
Arguments trace {P} _.

(** ** The monad of the handlers: state, and [None] for a loop that has
    not come to its end within the steps it was given. *)

Definition M (P A : Type) : Type := World P -> option (A * World P).

Definition ret {P A} (a : A) : M P A := fun w => Some (a, w).

Definition bind {P A B} (m : M P A) (k : A -> M P B) : M P B :=
  fun w => match m w with
           | Some (a, w') => k a w'
           | None => None
           end.

Definition stuck {P A} : M P A := fun _ => None.

Notation "'let*' x ':=' m 'in' k" := (bind m (fun x => k))
  (at level 10, x pattern, m at level 100, k at level 200).

Definition get_app {P} : M P AppFuse := fun w => Some (app w, w).

Definition put_app {P} (a : AppFuse) : M P unit :=
  fun w => Some (tt, {| app := a; java := java w; trace := trace w |}).

Definition emit {P} (e : Event) : M P unit :=
  fun w => Some (tt, {| app := app w; java := java w;
                        trace := trace w ++ [e] |}).

(** Unfold the monad's operations and reduce what that exposes. *)
Ltac run_monad :=
  repeat (unfold bind, ret, get_app, put_app, emit, stuck; cbv beta iota).

Section Handlers.
Context {P : Type} `{ContentProvider P}.

(** [env_->CallLongMethod(self_, app_fuse_get_file_size, inode)] *)
Definition CallLongMethod_getFileSize (inode : Z) : M P Z :=
  fun w =>
    let '(r, j) := getFileSize inode (java w) in
    Some (r, {| app := app w; java := j;
                trace := trace w ++ [CallGetFileSize inode] |}).

(** [env_->CallObjectMethod(self_, app_fuse_get_object_bytes, inode,
    offset, read_size)]; Java receives [(int, long, int)]. *)
Definition CallObjectMethod_getObjectBytes (inode offset size : Z)
  : M P (option (list byte)) :=
  fun w =>
    let '(r, j) := getObjectBytes inode offset size (java w) in
    Some (r, {| app := app w; java := j;
                trace := trace w ++ [CallGetObjectBytes inode offset size] |}).

(** [int64_t get_file_size(int inode)] *)
Definition get_file_size (inode : Z) : M P Z :=
  let* r := CallLongMethod_getFileSize (to_int32 inode) in
  ret (to_int64 r).

(** [int64_t get_object_bytes(int inode, uint64_t offset, uint32_t size,
    void* buf)]: the result and, when bytes were copied, [buf].  The
    subtraction is done in [uint64_t].  An array whose elements cannot be
    pinned counts as a [null] array. *)
Definition get_object_bytes (inode offset size : Z)
  : M P (Z * option (list byte)) :=
  let* file_size := get_file_size inode in
  let read_size :=
    to_uint32 (Z.min (to_uint64 size) (to_uint64 (file_size - offset))) in
  let* array := CallObjectMethod_getObjectBytes
             (to_int32 inode) (to_int64 offset) (to_int32 read_size) in
  match array with
  | None => ret (-1, None)
  | Some bytes =>
      if negb (Z.of_nat (length bytes) =? read_size) then ret (-1, None)
      else ret (read_size, Some bytes)
  end.

(** [static void fuse_reply(int fd, int unique, int reply_code,
    void* reply_data, size_t reply_size)] *)
Definition fuse_reply (unique reply_code : Z) (reply_data : iov_base_t)
    (reply_size : Z) : M P unit :=
  let unique := to_int32 unique in   (* the parameter is an [int] *)
  (* Don't send any data for error case. *)
  let reply_size := if negb (reply_code =? 0) then 0 else reply_size in
  let hdr := {| oh_len := to_uint32 (reply_size + sizeof_fuse_out_header);
                oh_error := reply_code;
                oh_unique := to_uint64 unique |} in
  let vec := [ {| iov_base := AtHeader hdr;
                  iov_len := sizeof_fuse_out_header |};
               {| iov_base := reply_data; iov_len := reply_size |} ] in
  emit (Writev (take (if negb (reply_size =? 0) then 2%nat else 1%nat) vec)).

Definition handle_fuse_lookup (header : fuse_in_header) (name : list Z)
    (out : FuseResponse) : M P (Z * FuseResponse) :=
  if negb (ih_nodeid header =? 1) then ret (- ENOENT, out)
  else
    let n := atoi name in
    if n =? 0 then ret (- ENOENT, out)
    else
      let* size := get_file_size n in
      if size <? 0 then ret (- ENOENT, out)
      else
        ret (0,
             prepare_buffer sizeof_fuse_entry_out
               (EntryOut
                  {| eo_nodeid := to_uint64 n;
                     eo_attr_valid := 10;
                     eo_entry_valid := 10;
                     eo_attr := {| a_ino := to_uint64 n;
                                   a_mode := Z.lor S_IFREG 0x1ff;
                                   a_size := to_uint64 size |} |})
               out).

Definition handle_fuse_init (_ : fuse_in_header) (in_ : fuse_init_in)
    (out : FuseResponse) : M P (Z * FuseResponse) :=
  if negb (ii_major in_ =? FUSE_KERNEL_VERSION) || (ii_minor in_ <? 6)
  then ret (-1, out)
  else
    (* Before writing |out|, we need to copy data from |in|. *)
    let minor := ii_minor in_ in
    let max_readahead := ii_max_readahead in_ in
    let response_size :=
      if minor <=? 22 then FUSE_COMPAT_22_INIT_OUT_SIZE
      else sizeof_fuse_init_out in
    ret (0,
         prepare_buffer response_size
           (InitOut
              {| io_major := FUSE_KERNEL_VERSION;
                 io_minor := Z.min minor 15;
                 io_max_readahead := max_readahead;
                 io_flags := Z.lor FUSE_ATOMIC_O_TRUNC FUSE_BIG_WRITES;
                 io_max_background := 32;
                 io_congestion_threshold := 32;
                 io_max_write := to_uint32 MAX_WRITE |})
           out).

Definition handle_fuse_getattr (header : fuse_in_header) (_ : unit)
    (out : FuseResponse) : M P (Z * FuseResponse) :=
  let filled mode size :=
    AttrOut {| ao_attr_valid := 10;
               ao_attr := {| a_ino := ih_nodeid header;
                             a_mode := mode; a_size := size |} |} in
  let out := prepare_buffer sizeof_fuse_attr_out (filled 0 0) out in
  if ih_nodeid header =? 1 then
    ret (0, set_data (filled (Z.lor S_IFDIR 0x1ff) 0) out)
  else
    let* size := get_file_size (ih_nodeid header) in
    if size <? 0 then ret (- ENOENT, out)
    else ret (0, set_data (filled (Z.lor S_IFREG 0x1ff) (to_uint64 size)) out).

(** The [do { handle = handle_counter_++; } while (handles_.count(handle)
    != 0)] of [handle_fuse_open], for at most [steps] rounds: the handle
    chosen and the counter left behind. *)
Fixpoint next_handle (steps : nat) (handles : gmap Z Z) (counter : Z)
  : option (Z * Z) :=
  match steps with
  | O => None
  | S k =>
      let handle := counter in
      let counter := to_uint32 (counter + 1) in
      if decide (is_Some (handles !! handle))
      then next_handle k handles counter
      else Some (handle, counter)
  end.

(** [handles_.insert(std::make_pair(handle, inode))] keeps an entry that
    is already there. *)
Definition map_insert (handle inode : Z) (handles : gmap Z Z) : gmap Z Z :=
  match handles !! handle with
  | Some _ => handles
  | None => <[handle := inode]> handles
  end.

Definition handle_fuse_open (header : fuse_in_header) (_ : unit)
    (out : FuseResponse) : M P (Z * FuseResponse) :=
  let* a := get_app in
  if Z.of_nat (size (handles_ a)) >=? NUM_MAX_HANDLES then
    (* Too many open files. *)
    ret (- EMFILE, out)
  else
    match next_handle (S (size (handles_ a))) (handles_ a)
                      (handle_counter_ a) with
    | None => stuck
    | Some (handle, counter) =>
        let* _ := put_app
          {| handles_ := map_insert handle (ih_nodeid header) (handles_ a);
             handle_counter_ := counter |} in
        ret (0, prepare_buffer sizeof_fuse_open_out
                  (OpenOut {| oo_fh := handle |}) out)
    end.

Definition handle_fuse_read (_ : fuse_in_header) (in_ : fuse_read_in)
    (out : FuseResponse) : M P (Z * FuseResponse) :=
  if ri_size in_ >? MAX_READ then ret (- EINVAL, out)
  else
    let* a := get_app in
    match handles_ a !! to_uint32 (ri_fh in_) with
    | None => ret (- EBADF, out)
    | Some inode =>
        let offset := ri_offset in_ in
        let size := ri_size in_ in
        (* Overwrite the size after writing data. *)
        let out := prepare_buffer 0 (buffer_ out) out in
        let* (result, buf) := get_object_bytes inode offset size in
        let out := match buf with
                   | Some bytes => set_data (ReadBytes bytes) out
                   | None => out
                   end in
        if result <? 0 then ret (- EIO, out)
        else ret (0, set_size (to_size_t result) out)
    end.

Definition handle_fuse_release (_ : fuse_in_header) (in_ : fuse_release_in)
    (out : FuseResponse) : M P (Z * FuseResponse) :=
  let* a := get_app in
  let* _ := put_app {| handles_ := delete (to_uint32 (li_fh in_)) (handles_ a);
                       handle_counter_ := handle_counter_ a |} in
  ret (0, out).

Definition handle_fuse_flush (_ : fuse_in_header) (_ : unit)
    (out : FuseResponse) : M P (Z * FuseResponse) :=
  ret (0, out).

(** [invoke_handler]: [cast] is the [static_cast<const T*>] of
    [request->data()]. *)
Definition invoke_handler {T : Type} (cast : list byte -> T)
    (handler : fuse_in_header -> T -> FuseResponse -> M P (Z * FuseResponse))
    (request : FuseRequest) : M P unit :=
  let response := new_response in
  let* (reply_code, response) :=
    handler (header request) (cast (data request)) response in
  fuse_reply (ih_unique (header request)) reply_code
             (AtData (buffer_ response)) (size_ response).

Definition no_view (_ : list byte) : unit := tt.

Definition handle_fuse_request (req : FuseRequest) : M P bool :=
  let opcode := ih_opcode (header req) in
  if opcode =? FUSE_LOOKUP then
    let* _ := invoke_handler as_c_string handle_fuse_lookup req in ret true
  else if opcode =? FUSE_INIT then
    let* _ := invoke_handler as_fuse_init_in handle_fuse_init req in ret true
  else if opcode =? FUSE_GETATTR then
    let* _ := invoke_handler no_view handle_fuse_getattr req in ret true
  else if opcode =? FUSE_FORGET then
    ret false
  else if opcode =? FUSE_OPEN then
    let* _ := invoke_handler no_view handle_fuse_open req in ret true
  else if opcode =? FUSE_READ then
    let* _ := invoke_handler as_fuse_read_in handle_fuse_read req in ret true
  else if opcode =? FUSE_RELEASE then
    let* _ := invoke_handler as_fuse_release_in handle_fuse_release req in
    ret true
  else if opcode =? FUSE_FLUSH then
    let* _ := invoke_handler no_view handle_fuse_flush req in ret true
  else
    let* _ := fuse_reply (ih_unique (header req)) (- ENOSYS) AtNull 0 in
    ret true.

(** ** The loop

    The device is the list of what each [read] on the FUSE descriptor
    will return: its result, [errno] when that is negative, and the
    contents of [request.buffer] afterwards.  The loop of the source
    runs for ever; here it stops, still [Reading], when the list is
    used up. *)

Record DeviceRead := { result : Z; errno : Z; read_buffer : list byte }.

Inductive LoopResult := Returned (b : bool) | Reading.

Fixpoint fuse_loop (device : list DeviceRead) : M P LoopResult :=
  match device with
  | [] => ret Reading
  | r :: device =>
      if result r <? 0 then
        if errno r =? EINTR then fuse_loop device  (* TEMP_FAILURE_RETRY *)
        else if errno r =? ENODEV then ret (Returned false)
        else fuse_loop device
      else
        let request := {| buffer := read_buffer r |} in
        let length := to_size_t (result r) in
        if length <? sizeof_fuse_in_header then fuse_loop device
        else if negb (ih_len (header request) =? length) then fuse_loop device
        else
          let* continue := handle_fuse_request request in
          if negb continue then ret (Returned true)
          else fuse_loop device
  end.

(** [com_android_mtp_AppFuse_start_app_fuse_loop(env, self, jfd)]: a fresh
    [AppFuse], then the loop on the descriptor. *)
Definition com_android_mtp_AppFuse_start_app_fuse_loop (self : P)
    (device : list DeviceRead)
  : option (LoopResult * World P) :=
  fuse_loop device {| app := new_AppFuse; java := self; trace := [] |}.
End Handlers.

(** ** The other side of the device: frames as the kernel lays them out,
    and a content provider backed by a table of files.  Used to run the
    model on concrete requests. *)

Module Kernel.
Definition byte_of_Z (z : Z) : byte :=
  default x00 (Byte.of_N (Z.to_N (z mod 256))).

Fixpoint store_le (width : nat) (z : Z) : list byte :=
  match width with
  | O => []
  | S k => byte_of_Z z :: store_le k (z / 256)
  end.

Definition u32 := store_le 4.
Definition u64 := store_le 8.

(** A request frame: [fuse_in_header] with [len] filled in, then the
    operation's own structure. *)
Definition frame (opcode unique nodeid : Z) (body : list byte) : list byte :=
  u32 (sizeof_fuse_in_header + Z.of_nat (length body)) ++ u32 opcode ++
  u64 unique ++ u64 nodeid ++ u32 0 ++ u32 0 ++ u32 0 ++ u32 0 ++ body.

Definition request (opcode unique nodeid : Z) (body : list byte)
  : FuseRequest :=
  {| buffer := frame opcode unique nodeid body |}.

Definition init_in (major minor max_readahead flags : Z) : list byte :=
  u32 major ++ u32 minor ++ u32 max_readahead ++ u32 flags.

Definition read_in (fh offset size : Z) : list byte :=
  u64 fh ++ u64 offset ++ u32 size ++ u32 0 ++ u64 0 ++ u32 0 ++ u32 0.

Definition release_in (fh : Z) : list byte :=
  u64 fh ++ u32 0 ++ u32 0 ++ u64 0.

Definition open_in : list byte := u32 0 ++ u32 0.

Definition c_string (s : string) : list byte :=
  map (fun c => byte_of_Z (Z.of_N (N_of_ascii c))) (list_ascii_of_string s)
  ++ [x00].

(** A successful [read] of one whole frame. *)
Definition delivers (f : list byte) : DeviceRead :=
  {| result := Z.of_nat (length f); errno := 0; read_buffer := f |}.

(** A failed [read]. *)
Definition fails (e : Z) : DeviceRead :=
  {| result := -1; errno := e; read_buffer := [] |}.
End Kernel.

(** A provider that serves a fixed table of files: the size of an unknown
    inode is -1, and a range is cut at the end of the file. *)
Record FileTable := { files : list (Z * list byte) }.

Fixpoint find_file (inode : Z) (fs : list (Z * list byte))
  : option (list byte) :=
  match fs with
  | [] => None
  | (i, content) :: r => if i =? inode then Some content else find_file inode r
  end.

#[export] Instance FileTable_provider : ContentProvider FileTable := {
  getFileSize inode t :=
    (match find_file inode (files t) with
     | Some content => Z.of_nat (length content)
     | None => -1
     end, t);
  getObjectBytes inode offset size t :=
    (match find_file inode (files t) with
     | Some content =>
         Some (take (Z.to_nat size) (drop (Z.to_nat offset) content))
     | None => None
     end, t)
}.

(** A provider that trusts its caller: every inode is a file of
    [claimed_size] bytes, and a range is always served in full. *)
Record Obliging := { claimed_size : Z }.

#[export] Instance Obliging_provider : ContentProvider Obliging := {
  getFileSize _ t := (claimed_size t, t);
  getObjectBytes _ _ size t := (Some (replicate (Z.to_nat size) x2a), t)
}.

(** One file, inode 5, of ten bytes. *)
Definition one_file : FileTable :=
  {| files := [(5, [x41; x42; x43; x44; x45; x46; x47; x48; x49; x4a])] |}.

Definition session {P} (self : P) : World P :=
  {| app := new_AppFuse; java := self; trace := [] |}.

(** The events a computation adds, its value, and the handle table it
    leaves, from a given world. *)
Definition outcome {P A} (m : M P A) (w : World P)
  : option (A * list (Z * Z) * list Event) :=
  match m w with
  | Some (a, w') =>
      Some (a, map_to_list (handles_ (app w')),
            drop (length (trace w)) (trace w'))
  | None => None
  end.

(** ** Vocabulary of the statements *)

(** The world once [e] has happened. *)
Definition after {P} (w : World P) (e : Event) : World P :=
  {| app := app w; java := java w; trace := trace w ++ [e] |}.

(** The segment that carries the output header. *)
Definition header_segment (hdr : fuse_out_header) : iovec :=
  {| iov_base := AtHeader hdr; iov_len := sizeof_fuse_out_header |}.

(** A reply of the header alone. *)
Definition header_only (error unique : Z) : Event :=
  Writev [header_segment {| oh_len := sizeof_fuse_out_header;
                            oh_error := error; oh_unique := unique |}].

(** A successful reply followed by [size] bytes of payload. *)
Definition with_payload (unique : Z) (d : ReplyData) (size : Z) : Event :=
  Writev [header_segment {| oh_len := sizeof_fuse_out_header + size;
                            oh_error := 0; oh_unique := unique |};
          {| iov_base := AtData d; iov_len := size |}].

(** What [fuse_reply] puts in the header for a request's [unique]: the
    value after its passage through the [int] parameter. *)
Definition echoed (unique : Z) : Z := to_uint64 (to_int32 unique).

Definition reply_unique (req : FuseRequest) : Z :=
  echoed (ih_unique (header req)).

(** The size [get_object_bytes] asks the provider for. *)
Definition read_size (size file_size offset : Z) : Z :=
  to_uint32 (Z.min (to_uint64 size) (to_uint64 (file_size - offset))).

(** The reply to a READ that reached the provider: [array] is what
    [getObjectBytes] returned for a request of [n] bytes. *)
Definition read_reply (unique : Z) (array : option (list byte)) (n : Z)
  : Event :=
  match array with
  | Some bytes =>
      if Z.of_nat (length bytes) =? n then
        if n =? 0 then header_only 0 unique
        else with_payload unique (ReadBytes bytes) n
      else header_only (- EIO) unique
  | None => header_only (- EIO) unique
  end.

(** The values [next_handle] tries, in order. *)
Fixpoint candidates (steps : nat) (counter : Z) : list Z :=
  match steps with
  | O => []
  | S k => counter :: candidates k (to_uint32 (counter + 1))
  end.

(** The states a session can be in: a fresh one, and any state a request,
    or a change of the provider, leads to from one of them. *)
Inductive reachable {P} `{ContentProvider P} : World P -> Prop :=
| reachable_session (self : P) : reachable (session self)
| reachable_request (w w' : World P) (req : FuseRequest) (continue : bool) :
    reachable w ->
    handle_fuse_request req w = Some (continue, w') ->
    reachable w'
| reachable_provider (w : World P) (self : P) :
    (* the provider changes on its own between two requests *)
    reachable w ->
    reachable {| app := app w; java := self; trace := trace w |}.

(** Serving a list of requests one after the other. *)
Fixpoint serve {P} `{ContentProvider P} (reqs : list FuseRequest) : M P unit :=
  match reqs with
  | [] => ret tt
  | req :: reqs => let* _ := handle_fuse_request req in serve reqs
  end.

(** [e] is a reply that hands out [token] as a file handle. *)
Definition hands_out (token : Z) (e : Event) : bool :=
  match e with
  | Writev [_; payload] =>
      match iov_base payload with
      | AtData (OpenOut o) => oo_fh o =? token
      | _ => false
      end
  | _ => false
  end.

(** Some OPEN among [events] was answered with [token]. *)
Definition issues (token : Z) (events : list Event) : bool :=
  existsb (hands_out token) events.

(** [e] is no reply, or a reply framed as the kernel expects: the header
    alone with [len] the header size, or a success header followed by a
    payload that is not empty, with [len] the sum of the two sizes. *)
Definition framed (e : Event) : bool :=
  match e with
  | Writev [h] =>
      match iov_base h with
      | AtHeader hdr =>
          (iov_len h =? sizeof_fuse_out_header) &&
          (oh_len hdr =? sizeof_fuse_out_header)
      | _ => false
      end
  | Writev [h; payload] =>
      match iov_base h with
      | AtHeader hdr =>
          (iov_len h =? sizeof_fuse_out_header) &&
          (oh_error hdr =? 0) && (0 <? iov_len payload) &&
          (iov_len payload <=? MAX_READ) &&
          (oh_len hdr =? sizeof_fuse_out_header + iov_len payload)
      | _ => false
      end
  | Writev _ => false
  | _ => true
  end.

(** The events of [w'] that [w] does not have yet. *)
Definition since {P} (w w' : World P) : list Event :=
  drop (length (trace w)) (trace w').

(** [w] with the [AppFuse] object replaced. *)
Definition with_app {P} (a : AppFuse) (w : World P) : World P :=
  {| app := a; java := java w; trace := trace w |}.

(** The eight operations with a handler of their own. *)
Definition supported (opcode : Z) : Prop :=
  opcode ∈ [FUSE_LOOKUP; FUSE_INIT; FUSE_GETATTR; FUSE_FORGET; FUSE_OPEN;
            FUSE_READ; FUSE_RELEASE; FUSE_FLUSH].

(** A [read] that delivered a frame the loop hands to the dispatcher. *)
Definition well_formed (r : DeviceRead) : Prop :=
  sizeof_fuse_in_header <= result r < 2 ^ 64 /\
  ih_len (header {| buffer := read_buffer r |}) = result r.

(** Example requests. *)
Definition init_7_22 : FuseRequest :=
  Kernel.request FUSE_INIT 1 0 (Kernel.init_in 7 22 131072 0).
Definition open_5 : FuseRequest :=
  Kernel.request FUSE_OPEN 3 5 Kernel.open_in.
Definition lookup_42 : FuseRequest :=
  Kernel.request FUSE_LOOKUP 2 1 (Kernel.c_string "42").
Definition lookup_minus_5 : FuseRequest :=
  Kernel.request FUSE_LOOKUP 2 1 (Kernel.c_string "-5").
Definition lookup_word : FuseRequest :=
  Kernel.request FUSE_LOOKUP 2 1 (Kernel.c_string "lost+found").
Definition release_0 : FuseRequest :=
  Kernel.request FUSE_RELEASE 6 5 (Kernel.release_in 0).
Definition flush_big_unique : FuseRequest :=
  Kernel.request FUSE_FLUSH (2 ^ 32 + 7) 5 [].
Definition read_0 (offset size : Z) : FuseRequest :=
  Kernel.request FUSE_READ 4 5 (Kernel.read_in 0 offset size).
Definition open_root : FuseRequest :=
  Kernel.request FUSE_OPEN 3 1 Kernel.open_in.
Definition mkdir_1 : FuseRequest :=
  Kernel.request 9 8 1 (Kernel.u32 0 ++ Kernel.u32 0 ++ Kernel.c_string "d").
Definition forget_frame : DeviceRead :=
  Kernel.delivers (Kernel.frame FUSE_FORGET 9 5 (Kernel.u64 1)).
Definition read_high_fh : FuseRequest :=
  Kernel.request FUSE_READ 4 5 (Kernel.read_in (2 ^ 32) 0 4).

(** ** Further vocabulary *)

(** [e] is an upcall to the provider, not a write to the device. *)
Definition is_upcall (e : Event) : bool :=
  match e with
  | Writev _ => false
  | _ => true
  end.

(** The operations whose handler goes to the provider. *)
Definition asks_provider (opcode : Z) : bool :=
  (opcode =? FUSE_LOOKUP) || (opcode =? FUSE_GETATTR) || (opcode =? FUSE_READ).

(** The reply codes each operation can be answered with. *)
Definition errors_of (opcode : Z) : list Z :=
  if opcode =? FUSE_LOOKUP then [0; - ENOENT]
  else if opcode =? FUSE_INIT then [0; -1]
  else if opcode =? FUSE_GETATTR then [0; - ENOENT]
  else if opcode =? FUSE_OPEN then [0; - EMFILE]
  else if opcode =? FUSE_READ then [0; - EINVAL; - EBADF; - EIO]
  else if opcode =? FUSE_RELEASE then [0]
  else if opcode =? FUSE_FLUSH then [0]
  else [- ENOSYS].

(** The room the request buffer has behind the input header, where a
    handler writes its reply. *)
Definition reply_room : Z := MAX_REQUEST_SIZE - sizeof_fuse_in_header.

(** What one [read] decides about the loop on its own: [Some false] for a
    device that is gone, [Some true] for a FORGET frame that reaches the
    dispatcher, [None] for anything after which the loop reads again. *)
Definition verdict (r : DeviceRead) : option bool :=
  if result r <? 0 then
    if errno r =? ENODEV then Some false else None
  else
    let request := {| buffer := read_buffer r |} in
    let length := to_size_t (result r) in
    if negb (length <? sizeof_fuse_in_header)
       && (ih_len (header request) =? length)
       && (ih_opcode (header request) =? FUSE_FORGET)
    then Some true else None.

(** The first verdict among the reads of the device. *)
Fixpoint loop_verdict (device : list DeviceRead) : LoopResult :=
  match device with
  | [] => Reading
  | r :: device =>
      match verdict r with
      | Some b => Returned b
      | None => loop_verdict device
      end
  end.

(** The number of replies among [events]. *)
Definition count_replies (events : list Event) : nat :=
  length (filter (fun e => negb (is_upcall e)) events).

(** [req] is a RELEASE that erases [token]. *)
Definition releases (token : Z) (req : FuseRequest) : bool :=
  (ih_opcode (header req) =? FUSE_RELEASE) &&
  (to_uint32 (li_fh (as_fuse_release_in (data req))) =? token).

(** [req] is an OPEN. *)
Definition is_open (req : FuseRequest) : bool :=
  ih_opcode (header req) =? FUSE_OPEN.

(** A session in which handle 0 stands for node 5. *)
Definition opened_5 : World FileTable :=
  {| app := {| handles_ := {[ 0 := 5 ]}; handle_counter_ := 1 |};
     java := one_file; trace := [] |}.

(** LOOKUPs of names beyond [long], and of one that is a multiple of
    [2^32]. *)
Definition lookup_above_long : FuseRequest :=
  Kernel.request FUSE_LOOKUP 2 1 (Kernel.c_string "9223372036854775808").
Definition lookup_below_long : FuseRequest :=
  Kernel.request FUSE_LOOKUP 2 1 (Kernel.c_string "-9223372036854775809").
Definition lookup_two_to_32 : FuseRequest :=
  Kernel.request FUSE_LOOKUP 2 1 (Kernel.c_string "4294967296").

(** Further example requests. *)
Definition getattr_root_req : FuseRequest :=
  Kernel.request FUSE_GETATTR 11 1 (Kernel.u32 0 ++ Kernel.u32 0 ++ Kernel.u64 0).
Definition getattr_5 : FuseRequest :=
  Kernel.request FUSE_GETATTR 12 5 (Kernel.u32 0 ++ Kernel.u32 0 ++ Kernel.u64 0).
Definition flush_5 : FuseRequest :=
  Kernel.request FUSE_FLUSH 13 5 (Kernel.u64 0 ++ Kernel.u32 0 ++ Kernel.u32 0
                                  ++ Kernel.u64 0).
Definition short_read : DeviceRead :=
  Kernel.delivers (Kernel.u32 12 ++ Kernel.u32 1 ++ Kernel.u32 0).

(** ** Loading the library: [JNI_OnLoad]

    The runtime is what it answers: references, classes and method ids
    are integers, 0 for [nullptr]. *)

Module Jni.
Definition JNI_OK : Z := 0.
Definition JNI_VERSION_1_4 : Z := 0x00010004.
Definition nullptr : Z := 0.

(** The native functions of this library. *)
Inductive NativeFunction :=
| start_app_fuse_loop_fn.  (* com_android_mtp_AppFuse_start_app_fuse_loop *)

Record JNINativeMethod := {
  name : string;
  signature : string;
  fnPtr : NativeFunction
}.

Definition gMethods : list JNINativeMethod :=
  [ {| name := "native_start_app_fuse_loop";
       signature := "(I)Z";
       fnPtr := start_app_fuse_loop_fn |} ].

Record JNIEnv := {
  FindClass : string -> Z;
  NewGlobalRef : Z -> Z;
  GetMethodID : Z -> string -> string -> Z;
  (* android::AndroidRuntime::registerNativeMethods *)
  registerNativeMethods : string -> list JNINativeMethod -> Z
}.

(** [GetEnv]: the status, and the environment written through the
    pointer, if any. *)
Record JavaVM := { GetEnv : Z -> Z * option JNIEnv }.

Inductive JniCall :=
| CallGetEnv (version : Z)
| CallFindClass (class_name : string)
| CallNewGlobalRef (obj : Z)
| CallGetMethodID (clazz : Z) (method_name method_sig : string)
| CallRegisterNativeMethods (class_name : string)
                            (methods : list JNINativeMethod).

(** The statics of the file, and the calls made to the runtime. *)
Record Loader := {
  app_fuse_class : Z;
  app_fuse_get_file_size : Z;
  app_fuse_get_object_bytes : Z;
  jni_calls : list JniCall
}.

(** Statics start zeroed. *)
Definition unloaded : Loader :=
  {| app_fuse_class := nullptr; app_fuse_get_file_size := nullptr;
     app_fuse_get_object_bytes := nullptr; jni_calls := [] |}.

Definition called (c : JniCall) (l : Loader) : Loader :=
  {| app_fuse_class := app_fuse_class l;
     app_fuse_get_file_size := app_fuse_get_file_size l;
     app_fuse_get_object_bytes := app_fuse_get_object_bytes l;
     jni_calls := jni_calls l ++ [c] |}.

Definition set_app_fuse_class (v : Z) (l : Loader) : Loader :=
  {| app_fuse_class := v;
     app_fuse_get_file_size := app_fuse_get_file_size l;
     app_fuse_get_object_bytes := app_fuse_get_object_bytes l;
     jni_calls := jni_calls l |}.

Definition set_app_fuse_get_file_size (v : Z) (l : Loader) : Loader :=
  {| app_fuse_class := app_fuse_class l;
     app_fuse_get_file_size := v;
     app_fuse_get_object_bytes := app_fuse_get_object_bytes l;
     jni_calls := jni_calls l |}.

Definition set_app_fuse_get_object_bytes (v : Z) (l : Loader) : Loader :=
  {| app_fuse_class := app_fuse_class l;
     app_fuse_get_file_size := app_fuse_get_file_size l;
     app_fuse_get_object_bytes := v;
     jni_calls := jni_calls l |}.

(** How [JNI_OnLoad] ends: with a result, or in its [assert]. *)
Inductive OnLoad := Returns (r : Z) | AssertionFails.

Definition JNI_OnLoad (vm : JavaVM) (l : Loader) : OnLoad * Loader :=
  let '(status, env) := GetEnv vm JNI_VERSION_1_4 in
  let l := called (CallGetEnv JNI_VERSION_1_4) l in
  if negb (status =? JNI_OK) then (Returns (-1), l)
  else
    match env with
    | None => (AssertionFails, l)   (* assert(env != nullptr) *)
    | Some env =>
        let clazz := FindClass env "com/android/mtp/AppFuse" in
        let l := called (CallFindClass "com/android/mtp/AppFuse") l in
        if clazz =? nullptr then (Returns (-1), l)
        else
          let l := set_app_fuse_class (NewGlobalRef env clazz)
                     (called (CallNewGlobalRef clazz) l) in
          if app_fuse_class l =? nullptr then (Returns (-1), l)
          else
            let l := set_app_fuse_get_file_size
                       (GetMethodID env (app_fuse_class l) "getFileSize" "(I)J")
                       (called (CallGetMethodID (app_fuse_class l)
                                  "getFileSize" "(I)J") l) in
            if app_fuse_get_file_size l =? nullptr then (Returns (-1), l)
            else
              let l := set_app_fuse_get_object_bytes
                         (GetMethodID env (app_fuse_class l)
                            "getObjectBytes" "(IJI)[B")
                         (called (CallGetMethodID (app_fuse_class l)
                                    "getObjectBytes" "(IJI)[B") l) in
              if app_fuse_get_object_bytes l =? nullptr then (Returns (-1), l)
              else
                let result :=
                  registerNativeMethods env "com/android/mtp/AppFuse"
                                        gMethods in
                let l := called (CallRegisterNativeMethods
                                   "com/android/mtp/AppFuse" gMethods) l in
                if result <? 0 then (Returns (-1), l)
                else (Returns JNI_VERSION_1_4, l)
    end.

(** [c] registers native methods. *)
Definition is_registration (c : JniCall) : bool :=
  match c with
  | CallRegisterNativeMethods _ _ => true
  | _ => false
  end.

(** A runtime that knows the class and, of [known], the methods; its
    registration returns [registered]. *)
Definition runtime (known : list string) (registered : Z) : JavaVM :=
  {| GetEnv _ :=
       (JNI_OK,
        Some {| FindClass c :=
                  if String.eqb c "com/android/mtp/AppFuse" then 7 else 0;
                NewGlobalRef o := if o =? 7 then 8 else 0;
                GetMethodID c m _ :=
                  if (c =? 8) && existsb (String.eqb m) known
                  then 100 + Z.of_nat (String.length m) else 0;
                registerNativeMethods _ _ := registered |}) |}.
End Jni.

(** * Properties *)

(** ** Integer conversions *)

Lemma to_uint32_range z : 0 <= to_uint32 z < 2 ^ 32.
Proof. unfold to_uint32. apply Z.mod_pos_bound. lia. Qed.

Lemma to_uint32_small z : 0 <= z < 2 ^ 32 -> to_uint32 z = z.
Proof. intros Hz. unfold to_uint32. apply Z.mod_small. lia. Qed.

Lemma to_uint64_small z : 0 <= z < 2 ^ 64 -> to_uint64 z = z.
Proof. intros Hz. unfold to_uint64. apply Z.mod_small. lia. Qed.

Lemma to_int32_small z : - 2 ^ 31 <= z < 2 ^ 31 -> to_int32 z = z.
Proof. intros Hz. unfold to_int32. rewrite Z.mod_small; lia. Qed.

Lemma to_int64_small z : - 2 ^ 63 <= z < 2 ^ 63 -> to_int64 z = z.
Proof. intros Hz. unfold to_int64. rewrite Z.mod_small; lia. Qed.

(** A [uint64_t] that goes through an [int] comes back unchanged exactly
    when it is below [2^31]. *)
Lemma through_int_small u : 0 <= u < 2 ^ 31 -> to_uint64 (to_int32 u) = u.
Proof.
  intros Hu. rewrite to_int32_small by lia. apply to_uint64_small. lia.
Qed.

(** ** The handle table *)

Section HandleTable.
Implicit Types (handles : gmap Z Z) (counter handle : Z).

Lemma length_candidates steps counter :
  length (candidates steps counter) = steps.
Proof.
  revert counter. induction steps as [|k IH]; intros c; simpl;
    [done | by rewrite IH].
Qed.

Lemma next_handle_free steps handles counter handle counter' :
  next_handle steps handles counter = Some (handle, counter') ->
  handles !! handle = None.
Proof.
  revert counter. induction steps as [|k IH]; intros counter; simpl.
  - discriminate.
  - destruct (decide (is_Some (handles !! counter))) as [Hin|Hout].
    + apply IH.
    + intros [= <- _]. by apply eq_None_not_Some.
Qed.

Lemma next_handle_in_range steps handles counter handle counter' :
  0 <= counter < 2 ^ 32 ->
  next_handle steps handles counter = Some (handle, counter') ->
  0 <= handle < 2 ^ 32 /\ 0 <= counter' < 2 ^ 32.
Proof.
  revert counter. induction steps as [|k IH]; intros counter Hc; simpl.
  - discriminate.
  - destruct (decide (is_Some (handles !! counter))) as [Hin|Hout].
    + apply IH, to_uint32_range.
    + intros [= <- <-]. split; [done | apply to_uint32_range].
Qed.

Lemma next_handle_exhausted steps handles counter :
  next_handle steps handles counter = None ->
  forall x, x ∈ candidates steps counter -> x ∈ dom handles.
Proof.
  revert counter. induction steps as [|k IH]; intros counter; simpl.
  - intros _ x Hx. by apply elem_of_nil in Hx.
  - destruct (decide (is_Some (handles !! counter))) as [Hin|Hout];
      [|discriminate].
    intros Hnone x [->|Hx]%elem_of_cons.
    + by apply elem_of_dom.
    + by apply (IH _ Hnone).
Qed.

Lemma candidates_offset steps counter x :
  0 <= counter < 2 ^ 32 ->
  x ∈ candidates steps counter ->
  exists j, 0 <= j < Z.of_nat steps /\ x = (counter + j) mod 2 ^ 32.
Proof.
  revert counter. induction steps as [|k IH]; intros counter Hc; simpl.
  - intros Hx. by apply elem_of_nil in Hx.
  - intros [->|Hx]%elem_of_cons.
    + exists 0. split; [lia|]. rewrite Z.add_0_r, Z.mod_small; lia.
    + destruct (IH _ (to_uint32_range _) Hx) as (j & Hj & ->).
      exists (j + 1). split; [lia|]. unfold to_uint32.
      rewrite Zplus_mod_idemp_l. f_equal. lia.
Qed.

Lemma candidates_NoDup steps counter :
  Z.of_nat steps <= 2 ^ 32 -> NoDup (candidates steps counter).
Proof.
  revert counter. induction steps as [|k IH]; intros counter Hk; simpl.
  - constructor.
  - constructor; [|apply IH; lia].
    intros Hx.
    destruct (candidates_offset _ _ _ (to_uint32_range _) Hx)
      as (j & Hj & Heq).
    unfold to_uint32 in Heq. rewrite Zplus_mod_idemp_l in Heq.
    assert (Hc : 0 <= counter < 2 ^ 32).
    { rewrite Heq. apply Z.mod_pos_bound. lia. }
    pose proof (Z.div_mod (counter + 1 + j) (2 ^ 32) ltac:(lia)) as Hdm.
    rewrite <- Heq in Hdm.
    assert (0 < (counter + 1 + j) `div` 2 ^ 32) by nia.
    nia.
Qed.

(** The loop of [handle_fuse_open] ends: a table of fewer than [2^32]
    entries cannot hold every candidate. *)
Lemma next_handle_total handles counter :
  Z.of_nat (size handles) < 2 ^ 32 ->
  exists handle counter',
    next_handle (S (size handles)) handles counter = Some (handle, counter').
Proof.
  intros Hsize.
  destruct (next_handle (S (size handles)) handles counter)
    as [[handle counter']|] eqn:Hnext; [by eauto|].
  exfalso.
  pose proof (next_handle_exhausted _ _ _ Hnext) as Hall.
  pose proof (candidates_NoDup (S (size handles)) counter ltac:(lia)) as Hnd.
  pose proof (length_candidates (S (size handles)) counter) as Hlen.
  assert (Hsub : (list_to_set (candidates (S (size handles)) counter)
                  : gset Z) ⊆ dom handles).
  { intros x Hx. apply elem_of_list_to_set in Hx. by apply Hall. }
  apply subseteq_size in Hsub.
  rewrite size_list_to_set, Hlen, size_dom in Hsub by done. lia.
Qed.

Lemma map_insert_fresh handle inode handles :
  handles !! handle = None ->
  map_insert handle inode handles = <[handle := inode]> handles.
Proof. intros Hfree. unfold map_insert. by rewrite Hfree. Qed.
End HandleTable.

(** ** Dispatch *)

Section Dispatch.
Context {P : Type} `{ContentProvider P}.
Implicit Types (req : FuseRequest) (w : World P).

Lemma dispatch_lookup req :
  ih_opcode (header req) = FUSE_LOOKUP ->
  handle_fuse_request req
  = (let* _ := invoke_handler as_c_string handle_fuse_lookup req in ret true).
Proof. intros Hop. unfold handle_fuse_request. by rewrite Hop. Qed.

Lemma dispatch_init req :
  ih_opcode (header req) = FUSE_INIT ->
  handle_fuse_request req
  = (let* _ := invoke_handler as_fuse_init_in handle_fuse_init req in ret true).
Proof. intros Hop. unfold handle_fuse_request. by rewrite Hop. Qed.

Lemma dispatch_getattr req :
  ih_opcode (header req) = FUSE_GETATTR ->
  handle_fuse_request req
  = (let* _ := invoke_handler no_view handle_fuse_getattr req in ret true).
Proof. intros Hop. unfold handle_fuse_request. by rewrite Hop. Qed.

Lemma dispatch_forget req :
  ih_opcode (header req) = FUSE_FORGET ->
  handle_fuse_request req = ret false.
Proof. intros Hop. unfold handle_fuse_request. by rewrite Hop. Qed.

Lemma dispatch_open req :
  ih_opcode (header req) = FUSE_OPEN ->
  handle_fuse_request req
  = (let* _ := invoke_handler no_view handle_fuse_open req in ret true).
Proof. intros Hop. unfold handle_fuse_request. by rewrite Hop. Qed.

Lemma dispatch_read req :
  ih_opcode (header req) = FUSE_READ ->
  handle_fuse_request req
  = (let* _ := invoke_handler as_fuse_read_in handle_fuse_read req in ret true).
Proof. intros Hop. unfold handle_fuse_request. by rewrite Hop. Qed.

Lemma dispatch_release req :
  ih_opcode (header req) = FUSE_RELEASE ->
  handle_fuse_request req
  = (let* _ := invoke_handler as_fuse_release_in handle_fuse_release req in
     ret true).
Proof. intros Hop. unfold handle_fuse_request. by rewrite Hop. Qed.

Lemma dispatch_flush req :
  ih_opcode (header req) = FUSE_FLUSH ->
  handle_fuse_request req
  = (let* _ := invoke_handler no_view handle_fuse_flush req in ret true).
Proof. intros Hop. unfold handle_fuse_request. by rewrite Hop. Qed.

Lemma dispatch_default req :
  ~ supported (ih_opcode (header req)) ->
  handle_fuse_request req
  = (let* _ := fuse_reply (ih_unique (header req)) (- ENOSYS) AtNull 0 in
     ret true).
Proof.
  intros Hop. unfold handle_fuse_request, supported in *.
  repeat match goal with
         | |- context [?a =? ?b] =>
             destruct (Z.eqb_spec a b) as [Heq|_];
             [exfalso; apply Hop; rewrite Heq; set_solver|]
         end.
  done.
Qed.

(** *** [fuse_reply] *)

Lemma fuse_reply_error unique code d size w :
  code <> 0 ->
  fuse_reply unique code d size w
  = Some (tt, after w (header_only code (echoed unique))).
Proof.
  intros Hcode. unfold fuse_reply.
  destruct (Z.eqb_spec code 0) as [|_]; [done|]. reflexivity.
Qed.

Lemma fuse_reply_empty unique d w :
  fuse_reply unique 0 d 0 w = Some (tt, after w (header_only 0 (echoed unique))).
Proof. reflexivity. Qed.

Lemma fuse_reply_payload unique d size w :
  0 < size < 2 ^ 32 - sizeof_fuse_out_header ->
  fuse_reply unique 0 (AtData d) size w
  = Some (tt, after w (with_payload (echoed unique) d size)).
Proof.
  intros Hsize. unfold fuse_reply. cbn [Z.eqb negb].
  destruct (Z.eqb_spec size 0) as [|_]; [lia|].
  cbn [negb take]. unfold with_payload, header_segment, emit, after.
  rewrite to_uint32_small by (unfold sizeof_fuse_out_header in *; lia).
  by rewrite Z.add_comm.
Qed.
End Dispatch.

(** ** Reply framing *)

(** C7.  Every reply goes through [fuse_reply].  When the reply code is not
    zero the payload is dropped: the header's [len] is the header size and
    the header is the only segment written.  When the reply code is zero
    [len] is the header size plus the payload size, and the payload is a
    second segment exactly when its size is greater than zero.  (A
    payload is at most [MAX_READ] bytes, so [len], a [uint32_t], does not
    wrap; [request_replies_framed] says the same of the replies of every
    request.) *)
Theorem reply_framing {P} (unique reply_code : Z) (reply_data : iov_base_t)
    (reply_size : Z) (w : World P) :
  0 <= reply_size < 2 ^ 32 - sizeof_fuse_out_header ->
  exists hdr payload,
    fuse_reply unique reply_code reply_data reply_size w
    = Some (tt, after w (Writev (header_segment hdr :: payload))) /\
    oh_error hdr = reply_code /\
    (reply_code <> 0 ->
       oh_len hdr = sizeof_fuse_out_header /\ payload = []) /\
    (reply_code = 0 ->
       oh_len hdr = sizeof_fuse_out_header + reply_size /\
       (0 < reply_size ->
          payload = [{| iov_base := reply_data; iov_len := reply_size |}]) /\
       (reply_size = 0 -> payload = [])).
Proof.
  intros Hsize. unfold fuse_reply, emit, after, header_segment.
  destruct (Z.eqb_spec reply_code 0) as [->|Hcode]; cbn [negb].
  - destruct (Z.eqb_spec reply_size 0) as [->|Hpos]; cbn [negb take];
      eexists _, _; (split; [reflexivity|]); cbn [oh_error oh_len];
      (split; [done|]); (split; [done|]); intros _.
    + split; [done|]. split; [lia | done].
    + rewrite to_uint32_small by (unfold sizeof_fuse_out_header in *; lia).
      split; [lia|]. split; [done | lia].
  - eexists _, _. split; [reflexivity|]. cbn [oh_error oh_len].
    split; [done|]. split; [done|]. intros ->. done.
Qed.

Lemma reply_framing_witness :
  exists hdr payload,
    fuse_reply 7 0 (AtData (ReadBytes [x41; x42])) 2 (session one_file)
    = Some (tt, after (session one_file)
                  (Writev (header_segment hdr :: payload))) /\
    oh_error hdr = 0 /\
    (0 <> 0 -> oh_len hdr = sizeof_fuse_out_header /\ payload = []) /\
    (0 = 0 ->
       oh_len hdr = sizeof_fuse_out_header + 2 /\
       (0 < 2 ->
          payload = [{| iov_base := AtData (ReadBytes [x41; x42]);
                        iov_len := 2 |}]) /\
       (2 = 0 -> payload = [])).
Proof.
  apply (reply_framing 7 0 (AtData (ReadBytes [x41; x42])) 2 (session one_file)).
  unfold sizeof_fuse_out_header. lia.
Defined.

(** ** What each request does *)

Section Runs.
Context {P : Type} `{ContentProvider P}.
Implicit Types (req : FuseRequest) (w : World P).

Lemma opcode_cases (opcode : Z) :
  opcode = FUSE_LOOKUP \/ opcode = FUSE_INIT \/ opcode = FUSE_GETATTR \/
  opcode = FUSE_FORGET \/ opcode = FUSE_OPEN \/ opcode = FUSE_READ \/
  opcode = FUSE_RELEASE \/ opcode = FUSE_FLUSH \/ ~ supported opcode.
Proof.
  unfold supported.
  destruct (decide (opcode ∈ [FUSE_LOOKUP; FUSE_INIT; FUSE_GETATTR;
                              FUSE_FORGET; FUSE_OPEN; FUSE_READ;
                              FUSE_RELEASE; FUSE_FLUSH])) as [Hin|Hout].
  - repeat (apply elem_of_cons in Hin as [->|Hin]; [tauto|]).
    by apply elem_of_nil in Hin.
  - tauto.
Qed.

Lemma forget_run req w :
  ih_opcode (header req) = FUSE_FORGET ->
  handle_fuse_request req w = Some (false, w).
Proof. intros Hop. by rewrite (dispatch_forget _ Hop). Qed.

Lemma unsupported_run req w :
  ~ supported (ih_opcode (header req)) ->
  handle_fuse_request req w
  = Some (true, after w (header_only (- ENOSYS) (reply_unique req))).
Proof. intros Hop. by rewrite (dispatch_default _ Hop). Qed.

Lemma flush_run req w :
  ih_opcode (header req) = FUSE_FLUSH ->
  handle_fuse_request req w
  = Some (true, after w (header_only 0 (reply_unique req))).
Proof. intros Hop. by rewrite (dispatch_flush _ Hop). Qed.

Lemma release_run req w :
  ih_opcode (header req) = FUSE_RELEASE ->
  handle_fuse_request req w
  = Some (true,
          after (with_app
                   {| handles_ :=
                        delete (to_uint32 (li_fh (as_fuse_release_in (data req))))
                               (handles_ (app w));
                      handle_counter_ := handle_counter_ (app w) |} w)
                (header_only 0 (reply_unique req))).
Proof. intros Hop. by rewrite (dispatch_release _ Hop). Qed.

Lemma open_full req w :
  ih_opcode (header req) = FUSE_OPEN ->
  NUM_MAX_HANDLES <= Z.of_nat (size (handles_ (app w))) ->
  handle_fuse_request req w
  = Some (true, after w (header_only (- EMFILE) (reply_unique req))).
Proof.
  intros Hop Hfull. rewrite (dispatch_open _ Hop).
  unfold invoke_handler, handle_fuse_open. run_monad.
  assert ((Z.of_nat (size (handles_ (app w))) >=? NUM_MAX_HANDLES) = true)
    as -> by (apply Z.geb_le; lia).
  by rewrite fuse_reply_error.
Qed.

Lemma open_below_capacity req w :
  ih_opcode (header req) = FUSE_OPEN ->
  Z.of_nat (size (handles_ (app w))) < NUM_MAX_HANDLES ->
  exists token counter,
    next_handle (S (size (handles_ (app w)))) (handles_ (app w))
                (handle_counter_ (app w)) = Some (token, counter) /\
    handles_ (app w) !! token = None /\
    handle_fuse_request req w
    = Some (true,
            after (with_app
                     {| handles_ := <[token := ih_nodeid (header req)]>
                                      (handles_ (app w));
                        handle_counter_ := counter |} w)
                  (with_payload (reply_unique req)
                     (OpenOut {| oo_fh := token |}) sizeof_fuse_open_out)).
Proof.
  intros Hop Hroom.
  destruct (next_handle_total (handles_ (app w)) (handle_counter_ (app w)))
    as (token & counter & Hnext).
  { unfold NUM_MAX_HANDLES in Hroom. lia. }
  pose proof (next_handle_free _ _ _ _ _ Hnext) as Hfree.
  exists token, counter. split; [done|]. split; [done|].
  rewrite (dispatch_open _ Hop).
  unfold invoke_handler, handle_fuse_open. run_monad.
  assert ((Z.of_nat (size (handles_ (app w))) >=? NUM_MAX_HANDLES) = false)
    as ->.
  { destruct (Z.of_nat (size (handles_ (app w))) >=? NUM_MAX_HANDLES) eqn:Hge;
      [apply Z.geb_le in Hge; lia | done]. }
  rewrite Hnext, (map_insert_fresh _ _ _ Hfree).
  cbn [prepare_buffer size_ buffer_].
  by rewrite fuse_reply_payload.
Qed.

Lemma lookup_rejected req w :
  ih_opcode (header req) = FUSE_LOOKUP ->
  ih_nodeid (header req) <> 1 \/ atoi (as_c_string (data req)) = 0 ->
  handle_fuse_request req w
  = Some (true, after w (header_only (- ENOENT) (reply_unique req))).
Proof.
  intros Hop Hbad. rewrite (dispatch_lookup _ Hop).
  unfold invoke_handler, handle_fuse_lookup. run_monad.
  destruct (Z.eqb_spec (ih_nodeid (header req)) 1) as [Hroot|Hroot]; cbn [negb].
  - destruct Hbad as [|Hzero]; [done|]. rewrite Hzero. cbn [Z.eqb].
    by rewrite fuse_reply_error.
  - by rewrite fuse_reply_error.
Qed.

Lemma to_int32_idem z : to_int32 (to_int32 z) = to_int32 z.
Proof.
  apply to_int32_small. unfold to_int32.
  pose proof (Z.mod_pos_bound (z + 2 ^ 31) (2 ^ 32) ltac:(lia)). lia.
Qed.

Lemma lookup_forwarded req w :
  ih_opcode (header req) = FUSE_LOOKUP ->
  ih_nodeid (header req) = 1 ->
  atoi (as_c_string (data req)) <> 0 ->
  let n := atoi (as_c_string (data req)) in
  let answer := getFileSize n (java w) in
  handle_fuse_request req w
  = Some (true,
          {| app := app w; java := answer.2;
             trace := trace w ++
               [CallGetFileSize n;
                if to_int64 answer.1 <? 0
                then header_only (- ENOENT) (reply_unique req)
                else with_payload (reply_unique req)
                       (EntryOut
                          {| eo_nodeid := to_uint64 n;
                             eo_entry_valid := 10;
                             eo_attr_valid := 10;
                             eo_attr :=
                               {| a_ino := to_uint64 n;
                                  a_size := to_uint64 (to_int64 answer.1);
                                  a_mode := Z.lor S_IFREG 0x1ff |} |})
                       sizeof_fuse_entry_out] |}).
Proof.
  intros Hop Hroot Hn n answer. rewrite (dispatch_lookup _ Hop).
  unfold invoke_handler, handle_fuse_lookup, get_file_size,
    CallLongMethod_getFileSize.
  fold n. rewrite Hroot. change (negb (1 =? 1)) with false.
  destruct (Z.eqb_spec n 0) as [|_]; [done|].
  replace (to_int32 n) with n by (symmetry; apply to_int32_idem).
  run_monad. fold answer. destruct answer as [r j]. cbn [fst snd].
  destruct (to_int64 r <? 0); run_monad; cbn [prepare_buffer size_ buffer_].
  - rewrite fuse_reply_error by done. unfold after. cbn [app java trace].
    by rewrite <- app_assoc.
  - rewrite fuse_reply_payload by done. unfold after. cbn [app java trace].
    by rewrite <- app_assoc.
Qed.

Lemma init_accepted req w :
  ih_opcode (header req) = FUSE_INIT ->
  let in_ := as_fuse_init_in (data req) in
  ii_major in_ = FUSE_KERNEL_VERSION -> 6 <= ii_minor in_ ->
  handle_fuse_request req w
  = Some (true,
          after w
            (with_payload (reply_unique req)
               (InitOut
                  {| io_major := FUSE_KERNEL_VERSION;
                     io_minor := Z.min (ii_minor in_) 15;
                     io_max_readahead := ii_max_readahead in_;
                     io_flags := Z.lor FUSE_ATOMIC_O_TRUNC FUSE_BIG_WRITES;
                     io_max_background := 32;
                     io_congestion_threshold := 32;
                     io_max_write := 256 * 1024 |})
               (if ii_minor in_ <=? 22 then FUSE_COMPAT_22_INIT_OUT_SIZE
                else sizeof_fuse_init_out))).
Proof.
  intros Hop in_ Hmajor Hminor. rewrite (dispatch_init _ Hop).
  unfold invoke_handler, handle_fuse_init. fold in_.
  destruct (Z.eqb_spec (ii_major in_) FUSE_KERNEL_VERSION) as [_|]; [|done].
  destruct (Z.ltb_spec (ii_minor in_) 6) as [|_]; [lia|].
  cbn [negb orb]. run_monad. cbn [prepare_buffer size_ buffer_].
  rewrite fuse_reply_payload; [done|].
  destruct (ii_minor in_ <=? 22); vm_compute; done.
Qed.

Lemma init_refused req w :
  ih_opcode (header req) = FUSE_INIT ->
  let in_ := as_fuse_init_in (data req) in
  ii_major in_ <> FUSE_KERNEL_VERSION \/ ii_minor in_ < 6 ->
  handle_fuse_request req w
  = Some (true, after w (header_only (-1) (reply_unique req))).
Proof.
  intros Hop in_ Hbad. rewrite (dispatch_init _ Hop).
  unfold invoke_handler, handle_fuse_init. fold in_.
  assert (negb (ii_major in_ =? FUSE_KERNEL_VERSION) || (ii_minor in_ <? 6)
          = true) as ->.
  { destruct Hbad as [Hmajor|Hminor].
    - destruct (Z.eqb_spec (ii_major in_) FUSE_KERNEL_VERSION); done.
    - destruct (Z.ltb_spec (ii_minor in_) 6); [|lia].
      apply orb_true_r. }
  run_monad. by rewrite fuse_reply_error.
Qed.

Lemma getattr_root req w :
  ih_opcode (header req) = FUSE_GETATTR ->
  ih_nodeid (header req) = 1 ->
  handle_fuse_request req w
  = Some (true,
          after w
            (with_payload (reply_unique req)
               (AttrOut {| ao_attr_valid := 10;
                           ao_attr := {| a_ino := 1; a_size := 0;
                                         a_mode := Z.lor S_IFDIR 0x1ff |} |})
               sizeof_fuse_attr_out)).
Proof.
  intros Hop Hroot. rewrite (dispatch_getattr _ Hop).
  unfold invoke_handler, handle_fuse_getattr. rewrite Hroot.
  change (1 =? 1) with true. run_monad.
  cbn [prepare_buffer set_data size_ buffer_].
  by rewrite fuse_reply_payload.
Qed.

Lemma getattr_file req w :
  ih_opcode (header req) = FUSE_GETATTR ->
  ih_nodeid (header req) <> 1 ->
  let inode := to_int32 (ih_nodeid (header req)) in
  let answer := getFileSize inode (java w) in
  handle_fuse_request req w
  = Some (true,
          {| app := app w; java := answer.2;
             trace := trace w ++
               [CallGetFileSize inode;
                if to_int64 answer.1 <? 0
                then header_only (- ENOENT) (reply_unique req)
                else with_payload (reply_unique req)
                       (AttrOut
                          {| ao_attr_valid := 10;
                             ao_attr :=
                               {| a_ino := ih_nodeid (header req);
                                  a_size := to_uint64 (to_int64 answer.1);
                                  a_mode := Z.lor S_IFREG 0x1ff |} |})
                       sizeof_fuse_attr_out] |}).
Proof.
  intros Hop Hroot inode answer. rewrite (dispatch_getattr _ Hop).
  unfold invoke_handler, handle_fuse_getattr, get_file_size,
    CallLongMethod_getFileSize.
  destruct (Z.eqb_spec (ih_nodeid (header req)) 1) as [|_]; [done|].
  run_monad. fold inode. fold answer. destruct answer as [r j]. cbn [fst snd].
  destruct (to_int64 r <? 0); run_monad;
    cbn [prepare_buffer set_data size_ buffer_].
  - rewrite fuse_reply_error by done. unfold after. cbn [app java trace].
    by rewrite <- app_assoc.
  - rewrite fuse_reply_payload by done. unfold after. cbn [app java trace].
    by rewrite <- app_assoc.
Qed.

Lemma byte_at_range buf i : 0 <= byte_at buf i < 256.
Proof.
  unfold byte_at. pose proof (Byte.to_N_bounded (default x00 (buf !! i))). lia.
Qed.

Lemma load_le_range width buf off :
  0 <= load_le width buf off < 256 ^ Z.of_nat width.
Proof.
  revert off. induction width as [|k IH]; intros off.
  - simpl. lia.
  - rewrite Nat2Z.inj_succ, Z.pow_succ_r by lia. cbn [load_le].
    pose proof (byte_at_range buf off). specialize (IH (S off)).
    set (p := 256 ^ Z.of_nat k) in *. lia.
Qed.

Lemma load_u32_range buf off : 0 <= load_u32 buf off < 2 ^ 32.
Proof. apply (load_le_range 4). Qed.

Lemma load_u64_range buf off : 0 <= load_u64 buf off < 2 ^ 64.
Proof. apply (load_le_range 8). Qed.

(** The size asked of the provider never exceeds the size requested. *)
Lemma read_size_le size file_size offset :
  0 <= size < 2 ^ 32 ->
  0 <= read_size size file_size offset <= size.
Proof.
  intros Hsize. unfold read_size.
  rewrite (to_uint64_small size) by lia.
  pose proof (Z.mod_pos_bound (file_size - offset) (2 ^ 64) ltac:(lia)).
  unfold to_uint64.
  set (rest := (file_size - offset) `mod` 2 ^ 64) in *.
  rewrite to_uint32_small; lia.
Qed.

(** Within the file, it is what is left of the file, at most. *)
Lemma read_size_within_file size file_size offset :
  0 <= size < 2 ^ 32 -> 0 <= offset <= file_size -> file_size < 2 ^ 63 ->
  read_size size file_size offset = Z.min size (file_size - offset).
Proof.
  intros Hsize Hoffset Hfile. unfold read_size.
  rewrite !to_uint64_small, to_uint32_small; lia.
Qed.

(** Past the end of the file, or for a file of negative size, the
    subtraction wraps and the whole requested size is asked for. *)
Lemma read_size_past_end size file_size offset :
  0 <= size < 2 ^ 32 -> 0 < offset - file_size <= 2 ^ 64 - 2 ^ 32 ->
  read_size size file_size offset = size.
Proof.
  intros Hsize Hpast. unfold read_size.
  rewrite (to_uint64_small size) by lia.
  assert (to_uint64 (file_size - offset) = file_size - offset + 2 ^ 64) as ->.
  { unfold to_uint64. symmetry. apply (Z.mod_unique_pos _ _ (-1)); lia. }
  rewrite to_uint32_small; lia.
Qed.

Lemma read_too_large req w :
  ih_opcode (header req) = FUSE_READ ->
  MAX_READ < ri_size (as_fuse_read_in (data req)) ->
  handle_fuse_request req w
  = Some (true, after w (header_only (- EINVAL) (reply_unique req))).
Proof.
  intros Hop Hsize. rewrite (dispatch_read _ Hop).
  unfold invoke_handler, handle_fuse_read.
  assert ((ri_size (as_fuse_read_in (data req)) >? MAX_READ) = true) as ->
    by (apply Z.gtb_lt; lia).
  run_monad. by rewrite fuse_reply_error.
Qed.

Lemma read_bad_handle req w :
  ih_opcode (header req) = FUSE_READ ->
  ri_size (as_fuse_read_in (data req)) <= MAX_READ ->
  handles_ (app w) !! to_uint32 (ri_fh (as_fuse_read_in (data req))) = None ->
  handle_fuse_request req w
  = Some (true, after w (header_only (- EBADF) (reply_unique req))).
Proof.
  intros Hop Hsize Hfh. rewrite (dispatch_read _ Hop).
  unfold invoke_handler, handle_fuse_read.
  assert ((ri_size (as_fuse_read_in (data req)) >? MAX_READ) = false) as ->.
  { destruct (ri_size (as_fuse_read_in (data req)) >? MAX_READ) eqn:Hgt;
      [apply Z.gtb_lt in Hgt; lia | done]. }
  run_monad. rewrite Hfh. run_monad. by rewrite fuse_reply_error.
Qed.

Lemma read_live req w inode :
  ih_opcode (header req) = FUSE_READ ->
  ri_size (as_fuse_read_in (data req)) <= MAX_READ ->
  handles_ (app w) !! to_uint32 (ri_fh (as_fuse_read_in (data req)))
  = Some inode ->
  let in_ := as_fuse_read_in (data req) in
  let size_answer := getFileSize (to_int32 inode) (java w) in
  let n := read_size (ri_size in_) (to_int64 size_answer.1) (ri_offset in_) in
  let bytes_answer :=
    getObjectBytes (to_int32 inode) (to_int64 (ri_offset in_)) n
                   size_answer.2 in
  handle_fuse_request req w
  = Some (true,
          {| app := app w; java := bytes_answer.2;
             trace := trace w ++
               [CallGetFileSize (to_int32 inode);
                CallGetObjectBytes (to_int32 inode)
                                   (to_int64 (ri_offset in_)) n;
                read_reply (reply_unique req) bytes_answer.1 n] |}).
Proof.
  intros Hop Hsize Hfh in_ size_answer n bytes_answer.
  fold in_ in Hsize, Hfh. rewrite (dispatch_read _ Hop).
  unfold invoke_handler, handle_fuse_read. fold in_.
  assert ((ri_size in_ >? MAX_READ) = false) as ->.
  { destruct (ri_size in_ >? MAX_READ) eqn:Hgt;
      [apply Z.gtb_lt in Hgt; lia | done]. }
  run_monad. fold in_. rewrite Hfh.
  unfold get_object_bytes, get_file_size, CallLongMethod_getFileSize,
    CallObjectMethod_getObjectBytes.
  run_monad. fold size_answer. destruct size_answer as [r j] eqn:Hr.
  cbn [fst snd] in *. run_monad. cbn [java app trace].
  fold (read_size (ri_size in_) (to_int64 r) (ri_offset in_)). fold n.
  pose proof (load_u32_range (data req) 16) as Hrange.
  change (load_u32 (data req) 16) with (ri_size in_) in Hrange.
  pose proof (read_size_le (ri_size in_) (to_int64 r) (ri_offset in_) Hrange)
    as Hn. fold n in Hn. unfold MAX_READ in Hsize.
  rewrite (to_int32_small n) by lia.
  fold bytes_answer. destruct bytes_answer as [array j'].
  cbn [fst snd]. unfold read_reply.
  destruct array as [bytes|]; run_monad.
  - destruct (Z.eqb_spec (Z.of_nat (length bytes)) n) as [Hlen|Hlen];
      cbn [negb]; run_monad.
    + assert ((n <? 0) = false) as -> by (apply Z.ltb_ge; lia).
      cbn [prepare_buffer set_data set_size size_ buffer_].
      unfold to_size_t. rewrite (to_uint64_small n) by lia.
      destruct (Z.eqb_spec n 0) as [->|Hpos].
      * rewrite fuse_reply_empty. unfold after. cbn [app java trace].
        by rewrite <- !app_assoc.
      * rewrite fuse_reply_payload by (unfold sizeof_fuse_out_header; lia).
        unfold after. cbn [app java trace]. by rewrite <- !app_assoc.
    + change (-1 <? 0) with true. cbv beta iota.
      rewrite fuse_reply_error by done. unfold after. cbn [app java trace].
      by rewrite <- !app_assoc.
  - change (-1 <? 0) with true. cbv beta iota.
    rewrite fuse_reply_error by done. unfold after. cbn [app java trace].
    by rewrite <- !app_assoc.
Qed.
End Runs.

(** ** The effect of a request on the session *)

Section Effects.
Context {P : Type} `{ContentProvider P}.
Implicit Types (req : FuseRequest) (w : World P).

Lemma since_app w a j new :
  since w {| app := a; java := j; trace := trace w ++ new |} = new.
Proof. unfold since. cbn [trace]. apply drop_app_length. Qed.

Lemma since_after w a e : since w (after (with_app a w) e) = [e].
Proof. exact (since_app w a (java w) [e]). Qed.

Lemma since_trans w w1 w2 new1 new2 :
  trace w1 = trace w ++ new1 -> trace w2 = trace w1 ++ new2 ->
  since w w2 = since w w1 ++ since w1 w2.
Proof.
  intros H1 H2. unfold since. rewrite H2, H1.
  rewrite (drop_app_length (trace w ++ new1) new2), drop_app_length.
  by rewrite <- app_assoc, drop_app_length.
Qed.

Lemma issues_app token l1 l2 :
  issues token (l1 ++ l2) = issues token l1 || issues token l2.
Proof. apply existsb_app. Qed.

(** What a request leaves behind.  Every request comes to an end; it only
    appends to the trace, and every reply it appends is [framed]; FORGET
    alone stops the loop; and the handle table changes in two ways only:
    a successful OPEN adds the fresh handle its reply carries, a RELEASE
    erases one. *)
Lemma request_effect req w :
  exists continue w' new,
    handle_fuse_request req w = Some (continue, w') /\
    trace w' = trace w ++ new /\
    forallb framed new = true /\
    (continue = false <-> ih_opcode (header req) = FUSE_FORGET) /\
    ((app w' = app w /\ forall t, issues t new = false) \/
     (ih_opcode (header req) = FUSE_RELEASE /\
      app w' = {| handles_ :=
                    delete (to_uint32 (li_fh (as_fuse_release_in (data req))))
                           (handles_ (app w));
                  handle_counter_ := handle_counter_ (app w) |} /\
      forall t, issues t new = false) \/
     (ih_opcode (header req) = FUSE_OPEN /\
      Z.of_nat (size (handles_ (app w))) < NUM_MAX_HANDLES /\
      exists token counter,
        next_handle (S (size (handles_ (app w)))) (handles_ (app w))
                    (handle_counter_ (app w)) = Some (token, counter) /\
        handles_ (app w) !! token = None /\
        app w' = {| handles_ := <[token := ih_nodeid (header req)]>
                                  (handles_ (app w));
                    handle_counter_ := counter |} /\
        new = [with_payload (reply_unique req)
                 (OpenOut {| oo_fh := token |}) sizeof_fuse_open_out])).
Proof.
  destruct (opcode_cases (ih_opcode (header req)))
    as [Hop|[Hop|[Hop|[Hop|[Hop|[Hop|[Hop|[Hop|Hop]]]]]]]].
  - (* LOOKUP *)
    destruct (decide (ih_nodeid (header req) = 1)) as [Hroot|Hroot];
      [destruct (decide (atoi (as_c_string (data req)) = 0)) as [Hn|Hn]|].
    + eexists _, _, _. rewrite (lookup_rejected _ _ Hop) by tauto.
      split; [done|]. split; [done|]. split; [done|].
      rewrite Hop. split; [done|]. by left.
    + eexists _, _, _. rewrite (lookup_forwarded _ _ Hop Hroot Hn).
      split; [done|]. split; [done|]. split; [by case_match|].
      rewrite Hop. split; [done|].
      left. split; [done|]. intros t. by case_match.
    + eexists _, _, _. rewrite (lookup_rejected _ _ Hop) by tauto.
      split; [done|]. split; [done|]. split; [done|].
      rewrite Hop. split; [done|]. by left.
  - (* INIT *)
    destruct (decide (ii_major (as_fuse_init_in (data req))
                      = FUSE_KERNEL_VERSION)) as [Hmajor|Hmajor];
      [destruct (decide (6 <= ii_minor (as_fuse_init_in (data req))))
         as [Hminor|Hminor]|].
    + eexists _, _, _. rewrite (init_accepted _ _ Hop Hmajor Hminor).
      split; [done|]. split; [done|]. split; [by case_match|].
      rewrite Hop. split; [done|]. by left.
    + eexists _, _, _. rewrite (init_refused _ _ Hop) by (right; lia).
      split; [done|]. split; [done|]. split; [done|].
      rewrite Hop. split; [done|]. by left.
    + eexists _, _, _. rewrite (init_refused _ _ Hop) by by left.
      split; [done|]. split; [done|]. split; [done|].
      rewrite Hop. split; [done|]. by left.
  - (* GETATTR *)
    destruct (decide (ih_nodeid (header req) = 1)) as [Hroot|Hroot].
    + eexists _, _, _. rewrite (getattr_root _ _ Hop Hroot).
      split; [done|]. split; [done|]. split; [done|].
      rewrite Hop. split; [done|]. by left.
    + eexists _, _, _. rewrite (getattr_file _ _ Hop Hroot).
      split; [done|]. split; [done|]. split; [by case_match|].
      rewrite Hop. split; [done|].
      left. split; [done|]. intros t. by case_match.
  - (* FORGET *)
    exists false, w, []. rewrite (forget_run _ _ Hop), app_nil_r.
    split; [done|]. split; [done|]. split; [done|]. split; [done|]. by left.
  - (* OPEN *)
    destruct (decide (Z.of_nat (size (handles_ (app w))) < NUM_MAX_HANDLES))
      as [Hroom|Hfull].
    + destruct (open_below_capacity _ w Hop Hroom)
        as (token & counter & Hnext & Hfree & Hrun).
      eexists _, _, _. rewrite Hrun.
      split; [done|]. split; [done|]. split; [done|].
      rewrite Hop. split; [done|].
      right; right. split; [done|]. split; [done|]. by exists token, counter.
    + eexists _, _, _. rewrite (open_full _ _ Hop) by lia.
      split; [done|]. split; [done|]. split; [done|].
      rewrite Hop. split; [done|]. by left.
  - (* READ *)
    destruct (decide (ri_size (as_fuse_read_in (data req)) <= MAX_READ))
      as [Hsize|Hsize];
      [destruct (handles_ (app w)
                 !! to_uint32 (ri_fh (as_fuse_read_in (data req))))
         as [inode|] eqn:Hfh|].
    + eexists _, _, _. rewrite (read_live _ _ _ Hop Hsize Hfh).
      split; [done|]. split; [done|]. split.
      { pose proof (load_u32_range (data req) 16) as Hrange.
        change (load_u32 (data req) 16)
          with (ri_size (as_fuse_read_in (data req))) in Hrange.
        match goal with
        | |- context [read_reply _ _ ?n] =>
            pose proof (read_size_le _
              (to_int64 (getFileSize (to_int32 inode) (java w)).1)
              (ri_offset (as_fuse_read_in (data req))) Hrange) as Hn;
            set (size := n) in *
        end.
        unfold read_reply. repeat case_match; try done.
        cbn. rewrite !andb_true_r, Z.eqb_refl, andb_true_r.
        apply andb_true_intro. split; [apply Z.ltb_lt | apply Z.leb_le]; lia. }
      rewrite Hop. split; [done|].
      left. split; [done|]. intros t. unfold read_reply.
      by repeat case_match.
    + eexists _, _, _. rewrite (read_bad_handle _ _ Hop Hsize Hfh).
      split; [done|]. split; [done|]. split; [done|].
      rewrite Hop. split; [done|]. by left.
    + eexists _, _, _. rewrite (read_too_large _ _ Hop) by lia.
      split; [done|]. split; [done|]. split; [done|].
      rewrite Hop. split; [done|]. by left.
  - (* RELEASE *)
    eexists _, _, _. rewrite (release_run _ _ Hop).
    split; [done|]. split; [done|]. split; [done|].
    rewrite Hop. split; [done|]. right; left. done.
  - (* FLUSH *)
    eexists _, _, _. rewrite (flush_run _ _ Hop).
    split; [done|]. split; [done|]. split; [done|].
    rewrite Hop. split; [done|]. by left.
  - (* anything else *)
    eexists _, _, _. rewrite (unsupported_run _ _ Hop).
    split; [done|]. split; [done|]. split; [done|]. split; [|by left].
    split; [done|]. intros Hforget. exfalso. apply Hop.
    rewrite Hforget. unfold supported. set_solver.
Qed.

(** Every reply a request sends is framed. *)
Lemma request_replies_framed req w continue w' :
  handle_fuse_request req w = Some (continue, w') ->
  forallb framed (since w w') = true.
Proof.
  intros Hrun.
  destruct (request_effect req w)
    as (c & w1 & new & Hrun' & Htrace & Hframed & _).
  rewrite Hrun in Hrun'. injection Hrun' as <- <-.
  unfold since. by rewrite Htrace, drop_app_length.
Qed.
End Effects.

Section Invariants.
Context {P : Type} `{ContentProvider P}.
Implicit Types (req : FuseRequest) (w : World P).

Lemma request_total req w :
  exists continue w', handle_fuse_request req w = Some (continue, w').
Proof.
  destruct (request_effect req w) as (continue & w' & _ & Hrun & _).
  by exists continue, w'.
Qed.

Lemma request_trace req w continue w' :
  handle_fuse_request req w = Some (continue, w') ->
  trace w' = trace w ++ since w w'.
Proof.
  intros Hrun.
  destruct (request_effect req w) as (c & w1 & new & Hrun' & Htrace & _).
  rewrite Hrun in Hrun'. injection Hrun' as <- <-.
  unfold since. by rewrite Htrace, drop_app_length.
Qed.

Lemma request_keeps_bound req w continue w' :
  handle_fuse_request req w = Some (continue, w') ->
  Z.of_nat (size (handles_ (app w))) <= NUM_MAX_HANDLES ->
  Z.of_nat (size (handles_ (app w'))) <= NUM_MAX_HANDLES.
Proof.
  intros Hrun Hbound.
  destruct (request_effect req w)
    as (c & w1 & new & Hrun' & _ & _ & _ & Heffect).
  rewrite Hrun in Hrun'. injection Hrun' as <- <-.
  destruct Heffect
    as [[-> _]|[(_ & -> & _)|(_ & Hroom & token & counter & _ & Hfree & -> & _)]];
    cbn [handles_].
  - done.
  - destruct (handles_ (app w)
              !! to_uint32 (li_fh (as_fuse_release_in (data req))))
      as [inode|] eqn:Hfh.
    + rewrite map_size_delete_Some by eauto. lia.
    + by rewrite map_size_delete_None.
  - rewrite map_size_insert_None by done. lia.
Qed.

Lemma reachable_bounded w :
  reachable w -> Z.of_nat (size (handles_ (app w))) <= NUM_MAX_HANDLES.
Proof.
  induction 1 as [self|w w' req continue _ IH Hrun|w self _ IH].
  - cbn. rewrite map_size_empty. unfold NUM_MAX_HANDLES. lia.
  - by apply (request_keeps_bound _ _ _ _ Hrun).
  - done.
Qed.

Lemma request_keeps_counter req w continue w' :
  handle_fuse_request req w = Some (continue, w') ->
  0 <= handle_counter_ (app w) < 2 ^ 32 ->
  0 <= handle_counter_ (app w') < 2 ^ 32.
Proof.
  intros Hrun Hcounter.
  destruct (request_effect req w)
    as (c & w1 & new & Hrun' & _ & _ & _ & Heffect).
  rewrite Hrun in Hrun'. injection Hrun' as <- <-.
  destruct Heffect
    as [[-> _]|[(_ & -> & _)|(_ & _ & token & counter & Hnext & _ & -> & _)]];
    cbn [handle_counter_]; [done | done |].
  by destruct (next_handle_in_range _ _ _ _ _ Hcounter Hnext).
Qed.

(** The counter of a session is a [uint32_t] throughout. *)
Lemma reachable_counter w :
  reachable w -> 0 <= handle_counter_ (app w) < 2 ^ 32.
Proof.
  induction 1 as [self|w w' req continue _ IH Hrun|w self _ IH].
  - cbn. lia.
  - by apply (request_keeps_counter _ _ _ _ Hrun).
  - done.
Qed.

(** A handle that is not in the table stays out of it unless an OPEN is
    answered with it. *)
Lemma request_keeps_absent req w continue w' token :
  handle_fuse_request req w = Some (continue, w') ->
  handles_ (app w) !! token = None ->
  issues token (since w w') = false ->
  handles_ (app w') !! token = None.
Proof.
  intros Hrun Habsent Hquiet.
  destruct (request_effect req w)
    as (c & w1 & new & Hrun' & Htrace & _ & _ & Heffect).
  rewrite Hrun in Hrun'. injection Hrun' as <- <-.
  assert (since w w' = new) as Hnew
    by (unfold since; by rewrite Htrace, drop_app_length).
  rewrite Hnew in Hquiet.
  destruct Heffect
    as [[-> _]|[(_ & -> & _)|(_ & _ & t & counter & _ & _ & -> & ->)]];
    cbn [handles_].
  - done.
  - destruct (decide (to_uint32 (li_fh (as_fuse_release_in (data req)))
                      = token)) as [->|Hne].
    + apply lookup_delete_eq.
    + by rewrite lookup_delete_ne.
  - cbn in Hquiet. rewrite orb_false_r in Hquiet.
    apply Z.eqb_neq in Hquiet. by rewrite lookup_insert_ne.
Qed.

Lemma serve_trace reqs w w' :
  serve reqs w = Some (tt, w') -> trace w' = trace w ++ since w w'.
Proof.
  revert w. induction reqs as [|req reqs IH]; intros w; cbn.
  - intros [= <-]. unfold since. by rewrite drop_all, app_nil_r.
  - unfold bind.
    destruct (handle_fuse_request req w) as [[c w1]|] eqn:Hrun; [|done].
    intros Hserve.
    pose proof (request_trace _ _ _ _ Hrun) as H1.
    pose proof (IH _ Hserve) as H2.
    rewrite (since_trans _ _ _ _ _ H1 H2), app_assoc, <- H1. exact H2.
Qed.

Lemma serve_keeps_absent reqs w w' token :
  serve reqs w = Some (tt, w') ->
  handles_ (app w) !! token = None ->
  issues token (since w w') = false ->
  handles_ (app w') !! token = None.
Proof.
  revert w. induction reqs as [|req reqs IH]; intros w; cbn.
  - by intros [= <-].
  - unfold bind.
    destruct (handle_fuse_request req w) as [[c w1]|] eqn:Hrun; [|done].
    intros Hserve Habsent Hquiet.
    pose proof (request_trace _ _ _ _ Hrun) as H1.
    pose proof (serve_trace _ _ _ Hserve) as H2.
    rewrite (since_trans _ _ _ _ _ H1 H2), issues_app in Hquiet.
    apply orb_false_iff in Hquiet as [Hq1 Hq2].
    apply (IH _ Hserve); [|done].
    by apply (request_keeps_absent _ _ _ _ _ Hrun).
Qed.

(** Requests always come to an end, so serving a list of them does. *)
Lemma serve_total reqs w : exists w', serve reqs w = Some (tt, w').
Proof.
  revert w. induction reqs as [|req reqs IH]; intros w; cbn.
  - by exists w.
  - unfold bind. destruct (request_total req w) as (c & w1 & ->). apply IH.
Qed.
End Invariants.

(** ** INIT *)

(** C5.  An INIT request whose major version is [FUSE_KERNEL_VERSION] and
    whose minor version is at least 6 is answered with success and an
    [fuse_init_out] holding the same major, minor = min(kernel minor, 15),
    the request's [max_readahead], flags [FUSE_ATOMIC_O_TRUNC |
    FUSE_BIG_WRITES], [max_background] = 32, [congestion_threshold] = 32
    and [max_write] = 256 KiB; any other INIT is answered with code -1. *)
Theorem init_negotiation {P} `{ContentProvider P} (req : FuseRequest)
    (w : World P) :
  ih_opcode (header req) = FUSE_INIT ->
  let in_ := as_fuse_init_in (data req) in
  (ii_major in_ = FUSE_KERNEL_VERSION /\ 6 <= ii_minor in_ ->
   handle_fuse_request req w
   = Some (true,
           after w
             (with_payload (reply_unique req)
                (InitOut
                   {| io_major := FUSE_KERNEL_VERSION;
                      io_minor := Z.min (ii_minor in_) 15;
                      io_max_readahead := ii_max_readahead in_;
                      io_flags := Z.lor FUSE_ATOMIC_O_TRUNC FUSE_BIG_WRITES;
                      io_max_background := 32;
                      io_congestion_threshold := 32;
                      io_max_write := 256 * 1024 |})
                (if ii_minor in_ <=? 22 then FUSE_COMPAT_22_INIT_OUT_SIZE
                 else sizeof_fuse_init_out)))) /\
  (ii_major in_ <> FUSE_KERNEL_VERSION \/ ii_minor in_ < 6 ->
   handle_fuse_request req w
   = Some (true, after w (header_only (-1) (reply_unique req)))).
Proof.
  intros Hop in_. split.
  - intros [Hmajor Hminor]. by apply init_accepted.
  - intros Hbad. by apply init_refused.
Qed.

Lemma init_negotiation_witness :
  handle_fuse_request init_7_22 (session one_file)
  = Some (true,
          after (session one_file)
            (with_payload 1
               (InitOut
                  {| io_major := 7; io_minor := 15;
                     io_max_readahead := 131072; io_flags := 40;
                     io_max_background := 32;
                     io_congestion_threshold := 32;
                     io_max_write := 262144 |})
               24)).
Proof.
  apply (proj1 (init_negotiation init_7_22 (session one_file) eq_refl)).
  vm_compute. split; [reflexivity | discriminate].
Defined.

(** ** The handle table *)

(** C4.  In every state a session can reach the handle table holds at most
    1024 entries.  There, an OPEN that finds 1024 entries is answered with
    [EMFILE] and changes nothing; an OPEN that finds fewer is answered with
    a token that was not in the table, and the table then maps that token
    to the node id of the request. *)
Theorem handle_table_capacity {P} `{ContentProvider P} (w : World P) :
  reachable w ->
  Z.of_nat (size (handles_ (app w))) <= NUM_MAX_HANDLES /\
  forall req, ih_opcode (header req) = FUSE_OPEN ->
    (Z.of_nat (size (handles_ (app w))) = NUM_MAX_HANDLES ->
     handle_fuse_request req w
     = Some (true, after w (header_only (- EMFILE) (reply_unique req)))) /\
    (Z.of_nat (size (handles_ (app w))) < NUM_MAX_HANDLES ->
     exists token w',
       handle_fuse_request req w = Some (true, w') /\
       since w w' = [with_payload (reply_unique req)
                       (OpenOut {| oo_fh := token |}) sizeof_fuse_open_out] /\
       handles_ (app w) !! token = None /\
       handles_ (app w')
       = <[token := ih_nodeid (header req)]> (handles_ (app w)) /\
       handles_ (app w') !! token = Some (ih_nodeid (header req))).
Proof.
  intros Hreach. split; [by apply reachable_bounded|].
  intros req Hop. split.
  - intros Hfull. apply open_full; [done | lia].
  - intros Hroom.
    destruct (open_below_capacity _ w Hop Hroom)
      as (token & counter & _ & Hfree & Hrun).
    eexists token, _. split; [exact Hrun|].
    split; [apply since_after|]. split; [done|].
    cbn [after with_app app handles_]. split; [done|].
    apply lookup_insert_eq.
Qed.

Lemma handle_table_capacity_witness :
  reachable (session one_file) /\
  exists token w',
    handle_fuse_request open_5 (session one_file) = Some (true, w') /\
    since (session one_file) w'
    = [with_payload (reply_unique open_5)
         (OpenOut {| oo_fh := token |}) sizeof_fuse_open_out] /\
    handles_ (app (session one_file)) !! token = None /\
    handles_ (app w')
    = <[token := ih_nodeid (header open_5)]>
        (handles_ (app (session one_file))) /\
    handles_ (app w') !! token = Some (ih_nodeid (header open_5)).
Proof.
  split; [apply reachable_session|].
  apply (proj2 (proj2 (handle_table_capacity (session one_file)
                         (reachable_session one_file)) open_5 eq_refl)).
  vm_compute. reflexivity.
Defined.

(** 1024 OPENs in a row succeed, with the handles 0 to 1023; the 1025th is
    answered with [EMFILE]. *)
Example open_exhaustion :
  option_map (fun '(_, w) => (size (handles_ (app w)),
                              handles_ (app w) !! 1023,
                              last (trace w)))
    (serve (replicate 1025 open_5) (session one_file))
  = Some (1024%nat, Some 5, Some (header_only (- EMFILE) 3)).
Proof. vm_compute. reflexivity. Qed.

(** C10.  Below capacity an OPEN succeeds with a fresh handle whatever its
    node id is, and without any upcall: the provider's state is unchanged
    and the reply is the only new event.  The provider first hears of the
    node when the handle is read: that READ starts with [getFileSize]. *)
Theorem open_without_provider {P} `{ContentProvider P} (req : FuseRequest)
    (w : World P) :
  ih_opcode (header req) = FUSE_OPEN ->
  Z.of_nat (size (handles_ (app w))) < NUM_MAX_HANDLES ->
  exists token w',
    handle_fuse_request req w = Some (true, w') /\
    java w' = java w /\
    since w w' = [with_payload (reply_unique req)
                    (OpenOut {| oo_fh := token |}) sizeof_fuse_open_out] /\
    handles_ (app w) !! token = None /\
    handles_ (app w') !! token = Some (ih_nodeid (header req)) /\
    forall read,
      ih_opcode (header read) = FUSE_READ ->
      ri_size (as_fuse_read_in (data read)) <= MAX_READ ->
      to_uint32 (ri_fh (as_fuse_read_in (data read))) = token ->
      exists w'',
        handle_fuse_request read w' = Some (true, w'') /\
        head (since w' w'')
        = Some (CallGetFileSize (to_int32 (ih_nodeid (header req)))).
Proof.
  intros Hop Hroom.
  destruct (open_below_capacity _ w Hop Hroom)
    as (token & counter & _ & Hfree & Hrun).
  set (w1 := after (with_app
                      {| handles_ := <[token := ih_nodeid (header req)]>
                                       (handles_ (app w));
                         handle_counter_ := counter |} w)
                   (with_payload (reply_unique req)
                      (OpenOut {| oo_fh := token |}) sizeof_fuse_open_out))
    in *.
  assert (Hlive : handles_ (app w1) !! token = Some (ih_nodeid (header req)))
    by apply lookup_insert_eq.
  exists token, w1. split; [exact Hrun|].
  split; [done|]. split; [apply since_after|]. split; [done|].
  split; [exact Hlive|].
  intros read Hread Hsize Hfh. rewrite <- Hfh in Hlive.
  eexists. rewrite (read_live _ _ _ Hread Hsize Hlive).
  split; [done|]. by rewrite since_app.
Qed.

Lemma open_without_provider_witness :
  exists token w',
    handle_fuse_request open_root (session one_file) = Some (true, w') /\
    java w' = java (session one_file) /\
    since (session one_file) w'
    = [with_payload (reply_unique open_root)
         (OpenOut {| oo_fh := token |}) sizeof_fuse_open_out] /\
    handles_ (app (session one_file)) !! token = None /\
    handles_ (app w') !! token = Some (ih_nodeid (header open_root)) /\
    forall read,
      ih_opcode (header read) = FUSE_READ ->
      ri_size (as_fuse_read_in (data read)) <= MAX_READ ->
      to_uint32 (ri_fh (as_fuse_read_in (data read))) = token ->
      exists w'',
        handle_fuse_request read w' = Some (true, w'') /\
        head (since w' w'')
        = Some (CallGetFileSize (to_int32 (ih_nodeid (header open_root)))).
Proof.
  apply (open_without_provider open_root (session one_file)).
  - reflexivity.
  - vm_compute. reflexivity.
Defined.

(** C9.  From a state with room in the table, OPEN of any node yields a
    handle [fh]; a READ on [fh] (of any offset and size) followed by
    RELEASE of [fh] leaves the handle table as it was before the OPEN.
    RELEASE always succeeds, and erasing a token that is absent changes
    nothing, so a second RELEASE of the same handle is a no-op on the
    table.  ([handle_counter_] is a [uint32_t].) *)
Theorem open_read_release_round_trip {P} `{ContentProvider P}
    (open read release : FuseRequest) (w : World P) :
  ih_opcode (header open) = FUSE_OPEN ->
  ih_opcode (header read) = FUSE_READ ->
  ih_opcode (header release) = FUSE_RELEASE ->
  0 <= handle_counter_ (app w) < 2 ^ 32 ->
  Z.of_nat (size (handles_ (app w))) < NUM_MAX_HANDLES ->
  (exists fh w1,
     handle_fuse_request open w = Some (true, w1) /\
     since w w1 = [with_payload (reply_unique open)
                     (OpenOut {| oo_fh := fh |}) sizeof_fuse_open_out] /\
     (ri_fh (as_fuse_read_in (data read)) = fh ->
      li_fh (as_fuse_release_in (data release)) = fh ->
      exists w2 w3,
        handle_fuse_request read w1 = Some (true, w2) /\
        handle_fuse_request release w2 = Some (true, w3) /\
        handles_ (app w3) = handles_ (app w))) /\
  (forall w0 : World P,
     let token := to_uint32 (li_fh (as_fuse_release_in (data release))) in
     exists w0',
       handle_fuse_request release w0 = Some (true, w0') /\
       since w0 w0' = [header_only 0 (reply_unique release)] /\
       handles_ (app w0') = delete token (handles_ (app w0)) /\
       (handles_ (app w0) !! token = None ->
        handles_ (app w0') = handles_ (app w0)) /\
       exists w0'',
         handle_fuse_request release w0' = Some (true, w0'') /\
         handles_ (app w0'') = handles_ (app w0')).
Proof.
  intros Hopen Hread Hrelease Hcounter Hroom. split.
  - destruct (open_below_capacity _ w Hopen Hroom)
      as (fh & counter & Hnext & Hfree & Hrun).
    destruct (next_handle_in_range _ _ _ _ _ Hcounter Hnext) as [Hfh _].
    eexists fh, _. split; [exact Hrun|]. split; [apply since_after|].
    intros Hrfh Hlfh.
    match type of Hrun with _ = Some (_, ?x) => set (w1 := x) in * end.
    destruct (request_effect read w1)
      as (c & w2 & new & Hrun2 & _ & _ & Hcont & Heffect).
    assert (c = true) as ->.
    { destruct c; [done|]. destruct Hcont as [Hforget _].
      rewrite Hread in Hforget. by specialize (Hforget eq_refl). }
    assert (app w2 = app w1) as Happ.
    { destruct Heffect as [[? _]|[(Hbad & _)|(Hbad & _)]];
        [done | by rewrite Hread in Hbad | by rewrite Hread in Hbad]. }
    exists w2. eexists. split; [exact Hrun2|].
    rewrite (release_run _ _ Hrelease). split; [done|].
    cbn [after with_app app handles_]. rewrite Happ, Hlfh.
    rewrite to_uint32_small by done.
    subst w1. cbn [after with_app app handles_].
    by rewrite delete_insert_id.
  - intros w0 token.
    eexists. rewrite (release_run _ _ Hrelease). split; [done|].
    split; [apply since_after|]. cbn [after with_app app handles_].
    fold token. split; [done|]. split; [apply delete_id|].
    eexists. rewrite (release_run _ _ Hrelease). split; [done|].
    cbn [after with_app app handles_]. fold token.
    apply delete_delete_eq.
Qed.

Lemma open_read_release_round_trip_witness :
  (exists fh w1,
     handle_fuse_request open_5 (session one_file) = Some (true, w1) /\
     since (session one_file) w1
     = [with_payload (reply_unique open_5)
          (OpenOut {| oo_fh := fh |}) sizeof_fuse_open_out] /\
     (ri_fh (as_fuse_read_in (data (read_0 0 4))) = fh ->
      li_fh (as_fuse_release_in (data release_0)) = fh ->
      exists w2 w3,
        handle_fuse_request (read_0 0 4) w1 = Some (true, w2) /\
        handle_fuse_request release_0 w2 = Some (true, w3) /\
        handles_ (app w3) = handles_ (app (session one_file)))) /\
  (forall w0 : World FileTable,
     let token := to_uint32 (li_fh (as_fuse_release_in (data release_0))) in
     exists w0',
       handle_fuse_request release_0 w0 = Some (true, w0') /\
       since w0 w0' = [header_only 0 (reply_unique release_0)] /\
       handles_ (app w0') = delete token (handles_ (app w0)) /\
       (handles_ (app w0) !! token = None ->
        handles_ (app w0') = handles_ (app w0)) /\
       exists w0'',
         handle_fuse_request release_0 w0' = Some (true, w0'') /\
         handles_ (app w0'') = handles_ (app w0')).
Proof.
  apply (open_read_release_round_trip open_5 (read_0 0 4) release_0
           (session one_file)).
  - reflexivity.
  - reflexivity.
  - reflexivity.
  - vm_compute. split; [discriminate | reflexivity].
  - vm_compute. reflexivity.
Defined.

(** ** READ *)

(** C6.  A READ of more than 128 KiB is answered with [EINVAL].
    Otherwise, when [in.fh] (a handle: a 32-bit token, as every value
    OPEN hands out) is not a live token of the table, the answer is
    [EBADF].  In particular, once a RELEASE has removed a handle, every
    later READ on it is answered with [EBADF], as long as no OPEN in
    between has been answered with that token again. *)
Theorem read_rejections {P} `{ContentProvider P} (read : FuseRequest)
    (w : World P) :
  ih_opcode (header read) = FUSE_READ ->
  let in_ := as_fuse_read_in (data read) in
  (MAX_READ < ri_size in_ ->
   handle_fuse_request read w
   = Some (true, after w (header_only (- EINVAL) (reply_unique read)))) /\
  (ri_size in_ <= MAX_READ -> ri_fh in_ < 2 ^ 32 ->
   (handles_ (app w) !! ri_fh in_ = None ->
    handle_fuse_request read w
    = Some (true, after w (header_only (- EBADF) (reply_unique read)))) /\
   (forall (release : FuseRequest) (reqs : list FuseRequest)
           (w0 w1 : World P),
      ih_opcode (header release) = FUSE_RELEASE ->
      li_fh (as_fuse_release_in (data release)) = ri_fh in_ ->
      handle_fuse_request release w0 = Some (true, w1) ->
      serve reqs w1 = Some (tt, w) ->
      issues (ri_fh in_) (since w1 w) = false ->
      handle_fuse_request read w
      = Some (true, after w (header_only (- EBADF) (reply_unique read))))).
Proof.
  intros Hread in_. split.
  - intros Hsize. by apply read_too_large.
  - intros Hsize Htoken.
    assert (to_uint32 (ri_fh in_) = ri_fh in_) as Hfh.
    { apply to_uint32_small.
      pose proof (load_u64_range (data read) 0) as Hrange.
      change (load_u64 (data read) 0) with (ri_fh in_) in Hrange. lia. }
    split.
    + intros Habsent. apply read_bad_handle; [done | done |].
      fold in_. by rewrite Hfh.
    + intros release reqs w0 w1 Hrelease Hsame Hrun Hserve Hquiet.
      apply read_bad_handle; [done | done |]. fold in_. rewrite Hfh.
      apply (serve_keeps_absent _ _ _ _ Hserve); [|done].
      rewrite (release_run _ _ Hrelease) in Hrun.
      match type of Hrun with
      | Some (_, ?x) = _ => assert (w1 = x) as -> by congruence
      end.
      cbn [after with_app app handles_]. rewrite Hsame, Hfh.
      apply lookup_delete_eq.
Qed.

Lemma read_rejections_witness :
  handle_fuse_request (read_0 2 4) (session one_file)
  = Some (true, after (session one_file)
                  (header_only (- EBADF) (reply_unique (read_0 2 4)))).
Proof.
  assert (ri_size (as_fuse_read_in (data (read_0 2 4))) <= MAX_READ)
    as Hsize by (vm_compute; discriminate).
  assert (ri_fh (as_fuse_read_in (data (read_0 2 4))) < 2 ^ 32)
    as Htoken by (vm_compute; reflexivity).
  apply (proj1 (proj2 (read_rejections (read_0 2 4) (session one_file)
                         eq_refl) Hsize Htoken)).
  vm_compute. reflexivity.
Defined.

(** The table is searched with the [uint32_t] conversion of [in->fh].
    For a handle that is the handle itself; a READ whose [fh] is [2^32],
    a value no OPEN hands out, is served from handle 0. *)
Example read_high_fh_is_served :
  ri_fh (as_fuse_read_in (data read_high_fh)) = 2 ^ 32 /\
  outcome (let* _ := handle_fuse_request open_5 in
           handle_fuse_request read_high_fh) (session one_file)
  = Some (true, [(0, 5)],
          [with_payload 3 (OpenOut {| oo_fh := 0 |}) 16;
           CallGetFileSize 5; CallGetObjectBytes 5 0 4;
           with_payload 4 (ReadBytes [x41; x42; x43; x44]) 4]).
Proof. vm_compute. split; reflexivity. Qed.

(** The cycle of the specification: OPEN, READ, RELEASE, then READ again. *)
Example open_read_release_read :
  outcome (let* _ := handle_fuse_request open_5 in
           let* _ := handle_fuse_request (read_0 2 4) in
           let* _ := handle_fuse_request release_0 in
           handle_fuse_request (read_0 2 4)) (session one_file)
  = Some (true, [],
          [with_payload 3 (OpenOut {| oo_fh := 0 |}) 16;
           CallGetFileSize 5; CallGetObjectBytes 5 2 4;
           with_payload 4 (ReadBytes [x43; x44; x45; x46]) 4;
           header_only 0 6;
           header_only (- EBADF) 4]).
Proof. vm_compute. reflexivity. Qed.

(** ** The loop *)

Section Loop.
Context {P : Type} `{ContentProvider P}.
Implicit Types (r : DeviceRead) (device : list DeviceRead) (w : World P).

(** A well-formed frame reaches the dispatcher. *)
Lemma fuse_loop_dispatch r device w :
  well_formed r ->
  fuse_loop (r :: device) w
  = (let* continue := handle_fuse_request {| buffer := read_buffer r |} in
     if negb continue then ret (Returned true) else fuse_loop device) w.
Proof.
  intros [Hresult Hlen]. cbn [fuse_loop].
  assert ((result r <? 0) = false) as ->
    by (apply Z.ltb_ge; unfold sizeof_fuse_in_header in *; lia).
  unfold to_size_t. rewrite to_uint64_small
    by (unfold sizeof_fuse_in_header in *; lia).
  assert ((result r <? sizeof_fuse_in_header) = false) as ->
    by (apply Z.ltb_ge; lia).
  rewrite Hlen, Z.eqb_refl. reflexivity.
Qed.

(** Whatever the device delivers, the loop stays within the reachable
    states. *)
Lemma fuse_loop_reachable device w res w' :
  reachable w -> fuse_loop device w = Some (res, w') -> reachable w'.
Proof.
  revert w. induction device as [|r device IH]; intros w Hreach;
    cbn [fuse_loop].
  - by intros [= _ <-].
  - repeat case_match; try (by apply IH); try (by intros [= _ <-]).
    unfold bind.
    destruct (handle_fuse_request {| buffer := read_buffer r |} w)
      as [[c w1]|] eqn:Hrun; [|done].
    pose proof (reachable_request _ _ _ _ Hreach Hrun) as Hreach1.
    destruct c; cbn [negb]; [by apply IH | by intros [= _ <-]].
Qed.
End Loop.

(** C8.  For a well-formed frame: FORGET sends no reply and makes the loop
    return true; an opcode outside the eight supported ones is answered
    with [ENOSYS] and the loop goes on; every opcode other than FORGET is
    handled to its end and the loop goes on.  A read that fails with
    [ENODEV] makes the loop return false. *)
Theorem loop_exits {P} `{ContentProvider P} (r : DeviceRead)
    (device : list DeviceRead) (w : World P) :
  let req := {| buffer := read_buffer r |} in
  (well_formed r -> ih_opcode (header req) = FUSE_FORGET ->
   handle_fuse_request req w = Some (false, w) /\
   fuse_loop (r :: device) w = Some (Returned true, w)) /\
  (well_formed r -> ~ supported (ih_opcode (header req)) ->
   let w' := after w (header_only (- ENOSYS) (reply_unique req)) in
   handle_fuse_request req w = Some (true, w') /\
   fuse_loop (r :: device) w = fuse_loop device w') /\
  (well_formed r -> ih_opcode (header req) <> FUSE_FORGET ->
   exists w',
     handle_fuse_request req w = Some (true, w') /\
     fuse_loop (r :: device) w = fuse_loop device w') /\
  (result r < 0 -> errno r = ENODEV ->
   fuse_loop (r :: device) w = Some (Returned false, w)).
Proof.
  intros req. split; [|split; [|split]].
  - intros Hwf Hop. rewrite (fuse_loop_dispatch _ _ _ Hwf). fold req.
    unfold bind. by rewrite (forget_run _ _ Hop).
  - intros Hwf Hop w'. rewrite (fuse_loop_dispatch _ _ _ Hwf). fold req.
    unfold bind. by rewrite (unsupported_run _ _ Hop).
  - intros Hwf Hop. rewrite (fuse_loop_dispatch _ _ _ Hwf). fold req.
    destruct (request_effect req w)
      as (c & w' & _ & Hrun & _ & _ & Hcont & _).
    assert (c = true) as ->.
    { destruct c; [done|]. by destruct Hop, (proj1 Hcont). }
    exists w'. unfold bind. by rewrite Hrun.
  - intros Hneg Hdev. cbn [fuse_loop].
    assert ((result r <? 0) = true) as -> by (apply Z.ltb_lt; lia).
    by rewrite Hdev.
Qed.

Lemma loop_exits_witness :
  fuse_loop (forget_frame :: [Kernel.fails ENODEV]) (session one_file)
  = Some (Returned true, session one_file) /\
  fuse_loop (Kernel.fails ENODEV :: [forget_frame]) (session one_file)
  = Some (Returned false, session one_file).
Proof.
  split.
  - apply (proj1 (loop_exits forget_frame [Kernel.fails ENODEV]
                    (session one_file))).
    + vm_compute. split; [split; [discriminate | reflexivity] | reflexivity].
    + reflexivity.
  - apply (proj2 (proj2 (proj2
             (loop_exits (Kernel.fails ENODEV) [forget_frame]
                (session one_file))))).
    + vm_compute. reflexivity.
    + reflexivity.
Defined.

(** The loop on a whole conversation: an interrupted read, a failed read,
    a frame that is too short, an MKDIR, then FORGET; what follows FORGET
    is never read. *)
Example loop_conversation :
  option_map (fun '(res, w) => (res, trace w))
    (com_android_mtp_AppFuse_start_app_fuse_loop one_file
       [Kernel.fails EINTR; Kernel.fails EIO;
        Kernel.delivers (Kernel.u32 12 ++ Kernel.u32 1 ++ Kernel.u32 0);
        Kernel.delivers (buffer mkdir_1);
        forget_frame; Kernel.delivers (buffer open_5)])
  = Some (Returned true, [header_only (- ENOSYS) 8]).
Proof. vm_compute. reflexivity. Qed.

(** ** READ: the size asked of the provider *)

(** [handle_fuse_read] asks the provider for [read_size] bytes of the
    file the handle stands for, after asking for that file's size. *)
Lemma read_asks_for_read_size {P} `{ContentProvider P} (read : FuseRequest)
    (w : World P) (inode : Z) :
  ih_opcode (header read) = FUSE_READ ->
  ri_size (as_fuse_read_in (data read)) <= MAX_READ ->
  handles_ (app w) !! to_uint32 (ri_fh (as_fuse_read_in (data read)))
  = Some inode ->
  let in_ := as_fuse_read_in (data read) in
  let file_size := to_int64 (getFileSize (to_int32 inode) (java w)).1 in
  let n := read_size (ri_size in_) file_size (ri_offset in_) in
  exists w' reply,
    handle_fuse_request read w = Some (true, w') /\
    since w w' = [CallGetFileSize (to_int32 inode);
                  CallGetObjectBytes (to_int32 inode)
                                     (to_int64 (ri_offset in_)) n;
                  reply] /\
    0 <= n <= ri_size in_ /\
    (0 <= ri_offset in_ <= file_size -> file_size < 2 ^ 63 ->
     n = Z.min (ri_size in_) (file_size - ri_offset in_)) /\
    (0 < ri_offset in_ - file_size <= 2 ^ 64 - 2 ^ 32 -> n = ri_size in_).
Proof.
  intros Hread Hsize Hfh in_ file_size n.
  pose proof (load_u32_range (data read) 16) as Hrange.
  change (load_u32 (data read) 16) with (ri_size in_) in Hrange.
  eexists _, _. rewrite (read_live _ _ _ Hread Hsize Hfh).
  split; [done|]. split; [by rewrite since_app|].
  split; [by apply read_size_le|]. split.
  - intros Hoffset Hfile. by apply read_size_within_file.
  - intros Hpast. by apply read_size_past_end.
Qed.

(** C1, at an input where it fails.  The file has 10 bytes and the READ is
    for 4 bytes at offset 11.  The specification's size is
    min(4, max(0, 10 - 11)) = 0; the code asks the provider for 4 bytes
    and, served, replies with a payload of 4 bytes. *)
Theorem read_past_end_asks_for_everything :
  ri_offset (as_fuse_read_in (data (read_0 11 4))) = 11 /\
  ri_size (as_fuse_read_in (data (read_0 11 4))) = 4 /\
  Z.min 4 (Z.max 0 (10 - 11)) = 0 /\
  read_size 4 10 11 = 4 /\
  outcome (let* _ := handle_fuse_request open_5 in
           handle_fuse_request (read_0 11 4))
          (session {| claimed_size := 10 |})
  = Some (true, [(0, 5)],
          [with_payload 3 (OpenOut {| oo_fh := 0 |}) 16;
           CallGetFileSize 5; CallGetObjectBytes 5 11 4;
           with_payload 4 (ReadBytes [x2a; x2a; x2a; x2a]) 4]).
Proof. vm_compute. repeat split; reflexivity. Qed.

(** The same READ against the table of files: the provider is still asked
    for 4 bytes, has none to give, and the reply is [EIO], not an empty
    success. *)
Example read_past_end_of_table_file :
  outcome (let* _ := handle_fuse_request open_5 in
           handle_fuse_request (read_0 11 4)) (session one_file)
  = Some (true, [(0, 5)],
          [with_payload 3 (OpenOut {| oo_fh := 0 |}) 16;
           CallGetFileSize 5; CallGetObjectBytes 5 11 4;
           header_only (- EIO) 4]).
Proof. vm_compute. reflexivity. Qed.

(** Within the file the size is the specification's: 1 byte at offset 9
    of 10, and nothing at offset 10. *)
Example read_near_end :
  outcome (let* _ := handle_fuse_request open_5 in
           let* _ := handle_fuse_request (read_0 9 128) in
           handle_fuse_request (read_0 10 128)) (session one_file)
  = Some (true, [(0, 5)],
          [with_payload 3 (OpenOut {| oo_fh := 0 |}) 16;
           CallGetFileSize 5; CallGetObjectBytes 5 9 1;
           with_payload 4 (ReadBytes [x4a]) 1;
           CallGetFileSize 5; CallGetObjectBytes 5 10 0;
           header_only 0 4]).
Proof. vm_compute. reflexivity. Qed.

(** ** LOOKUP *)

Example atoi_examples :
  atoi (as_c_string (Kernel.c_string "42")) = 42 /\
  atoi (as_c_string (Kernel.c_string "0")) = 0 /\
  atoi (as_c_string (Kernel.c_string "lost+found")) = 0 /\
  atoi (as_c_string (Kernel.c_string "-5")) = -5 /\
  atoi (as_c_string (Kernel.c_string " +7")) = 7 /\
  atoi (as_c_string (Kernel.c_string "12abc")) = 12 /\
  atoi (as_c_string (Kernel.c_string "4294967296")) = 0.
Proof. vm_compute. repeat split; reflexivity. Qed.

(** Beyond [long] the value is [LONG_MAX] or [LONG_MIN] before it is cut
    to an [int]: -1 above, 0 below. *)
Example atoi_beyond_long :
  atoi (as_c_string (Kernel.c_string "9223372036854775807")) = -1 /\
  atoi (as_c_string (Kernel.c_string "9223372036854775808")) = -1 /\
  atoi (as_c_string (Kernel.c_string "99999999999999999999")) = -1 /\
  atoi (as_c_string (Kernel.c_string "-9223372036854775808")) = 0 /\
  atoi (as_c_string (Kernel.c_string "-9223372036854775809")) = 0 /\
  atoi (as_c_string (Kernel.c_string "2147483648")) = - 2 ^ 31.
Proof. vm_compute. repeat split; reflexivity. Qed.

(** Within [int], [atoi] is the integer the name starts with. *)
Lemma atoi_within_int (s : list Z) :
  - 2 ^ 31 <= leading_integer s < 2 ^ 31 -> atoi s = leading_integer s.
Proof.
  intros Hrange. unfold atoi, strtol, LONG_MAX, LONG_MIN.
  rewrite Z.min_r, Z.max_r by lia. by apply to_int32_small.
Qed.

(** In general it is 0 exactly when that integer, kept within [long], is
    a multiple of [2^32]. *)
Lemma atoi_zero (s : list Z) :
  atoi s = 0 <-> strtol s mod 2 ^ 32 = 0.
Proof.
  unfold atoi, to_int32.
  pose proof (Z.mod_pos_bound (strtol s + 2 ^ 31) (2 ^ 32) ltac:(lia)) as Hb.
  pose proof (Z.div_mod (strtol s + 2 ^ 31) (2 ^ 32) ltac:(lia)) as Hdm.
  split.
  - intros Hzero. symmetry.
    apply (Z.mod_unique_pos _ _ ((strtol s + 2 ^ 31) `div` 2 ^ 32)); lia.
  - intros Hzero.
    pose proof (Z.div_mod (strtol s) (2 ^ 32) ltac:(lia)) as Hdm'.
    rewrite Hzero in Hdm'.
    assert ((strtol s + 2 ^ 31) `mod` 2 ^ 32 = 2 ^ 31) as ->; [|lia].
    symmetry. apply (Z.mod_unique_pos _ _ (strtol s `div` 2 ^ 32)); lia.
Qed.

(** C2, as the code has it.  A LOOKUP whose parent is not node 1, or for
    whose name [atoi] returns 0, is answered with [ENOENT] without any
    upcall.  Any other LOOKUP under node 1, one for whose name [atoi]
    returns a negative [int] included, starts by asking the provider for
    the size of that [int].  ([atoi] is [(int) strtol]: see [atoi_zero]
    and [atoi_within_int] for the names it turns into 0.) *)
Theorem lookup_rejects_before_upcall {P} `{ContentProvider P}
    (req : FuseRequest) (w : World P) :
  ih_opcode (header req) = FUSE_LOOKUP ->
  let n := atoi (as_c_string (data req)) in
  (ih_nodeid (header req) <> 1 \/ n = 0 ->
   handle_fuse_request req w
   = Some (true, after w (header_only (- ENOENT) (reply_unique req)))) /\
  (ih_nodeid (header req) = 1 -> n <> 0 ->
   exists w',
     handle_fuse_request req w = Some (true, w') /\
     head (since w w') = Some (CallGetFileSize n)).
Proof.
  intros Hop n. split.
  - intros Hbad. by apply lookup_rejected.
  - intros Hroot Hn. eexists.
    rewrite (lookup_forwarded _ _ Hop Hroot Hn).
    split; [done|]. by rewrite since_app.
Qed.

Lemma lookup_rejects_before_upcall_witness :
  handle_fuse_request lookup_word (session one_file)
  = Some (true, after (session one_file)
                  (header_only (- ENOENT) (reply_unique lookup_word))).
Proof.
  apply (proj1 (lookup_rejects_before_upcall lookup_word (session one_file)
                  eq_refl)).
  right. vm_compute. reflexivity.
Defined.

(** The name "-5" under the root parses to -5, which is not 0: the
    provider is asked for the size of inode -5 and, when it answers with
    a size, the reply is a success. *)
Lemma lookup_negative_name_reaches_provider :
  ih_nodeid (header lookup_minus_5) = 1 /\
  atoi (as_c_string (data lookup_minus_5)) = -5 /\
  outcome (handle_fuse_request lookup_minus_5)
          (session {| claimed_size := 10 |})
  = Some (true, [],
          [CallGetFileSize (-5);
           with_payload 2
             (EntryOut {| eo_nodeid := 2 ^ 64 - 5;
                          eo_entry_valid := 10;
                          eo_attr_valid := 10;
                          eo_attr := {| a_ino := 2 ^ 64 - 5; a_size := 10;
                                        a_mode := 0x81ff |} |})
             128]).
Proof. vm_compute. repeat split; reflexivity. Qed.

(** The LOOKUP scenarios of the specification. *)
Example lookup_scenarios :
  outcome (handle_fuse_request lookup_42)
          (session {| files := [(42, replicate 1000 x00)] |})
  = Some (true, [],
          [CallGetFileSize 42;
           with_payload 2
             (EntryOut {| eo_nodeid := 42; eo_entry_valid := 10;
                          eo_attr_valid := 10;
                          eo_attr := {| a_ino := 42; a_size := 1000;
                                        a_mode := 0x81ff |} |})
             128]) /\
  outcome (handle_fuse_request lookup_42) (session one_file)
  = Some (true, [], [CallGetFileSize 42; header_only (- ENOENT) 2]).
Proof. vm_compute. split; reflexivity. Qed.

(** Names beyond [long].  Above it [atoi] gives -1 and the provider is
    asked for inode -1; below it [atoi] gives 0 and the LOOKUP is refused
    without an upcall, as is the LOOKUP of "4294967296". *)
Example lookup_beyond_long :
  outcome (handle_fuse_request lookup_above_long) (session one_file)
  = Some (true, [], [CallGetFileSize (-1); header_only (- ENOENT) 2]) /\
  outcome (handle_fuse_request lookup_below_long) (session one_file)
  = Some (true, [], [header_only (- ENOENT) 2]) /\
  outcome (handle_fuse_request lookup_two_to_32) (session one_file)
  = Some (true, [], [header_only (- ENOENT) 2]).
Proof. vm_compute. repeat split; reflexivity. Qed.

(** ** The [unique] of a reply *)

(** Below [2^31] the request's [unique] comes back as it is. *)
Lemma reply_unique_small (req : FuseRequest) :
  ih_unique (header req) < 2 ^ 31 ->
  reply_unique req = ih_unique (header req).
Proof.
  intros Hsmall. apply through_int_small.
  pose proof (load_u64_range (buffer req) 8) as Hrange.
  change (load_u64 (buffer req) 8) with (ih_unique (header req)) in Hrange.
  lia.
Qed.

(** C3, at an input where it fails.  [fuse_reply] takes [unique] as an
    [int]: a FLUSH whose [unique] is [2^32 + 7] is answered with
    [unique] 7. *)
Theorem reply_unique_goes_through_int :
  ih_unique (header flush_big_unique) = 2 ^ 32 + 7 /\
  outcome (handle_fuse_request flush_big_unique) (session one_file)
  = Some (true, [], [header_only 0 7]).
Proof. vm_compute. split; reflexivity. Qed.

(** And one whose [unique] is [2^31] is answered with [2^64 - 2^31]. *)
Example reply_unique_sign_extended :
  outcome (handle_fuse_request (Kernel.request FUSE_FLUSH (2 ^ 31) 5 []))
          (session one_file)
  = Some (true, [], [header_only 0 (2 ^ 64 - 2 ^ 31)]).
Proof. vm_compute. reflexivity. Qed.

(** * Further properties of the code *)

(** ** The reply to a request *)

Section Replies.
Context {P : Type} `{ContentProvider P}.
Implicit Types (req : FuseRequest) (w : World P).

Lemma errors_of_unsupported opcode :
  ~ supported opcode -> errors_of opcode = [- ENOSYS].
Proof.
  intros Hop. unfold errors_of, supported in *.
  repeat match goal with
         | |- context [?a =? ?b] =>
             destruct (Z.eqb_spec a b) as [Heq|_];
             [exfalso; apply Hop; rewrite Heq; set_solver|]
         end.
  done.
Qed.

Lemma asks_provider_unsupported opcode :
  ~ supported opcode -> asks_provider opcode = false.
Proof.
  intros Hop. unfold asks_provider, supported in *.
  repeat match goal with
         | |- context [?a =? ?b] =>
             destruct (Z.eqb_spec a b) as [Heq|_];
             [exfalso; apply Hop; rewrite Heq; set_solver|]
         end.
  done.
Qed.

(** The shape of what a request other than FORGET adds to the trace: the
    upcalls of its handler, at most two, then one reply, whose header
    carries the request's [unique] as [fuse_reply] passes it on and a code
    the operation can be answered with. *)
Lemma request_reply req w :
  ih_opcode (header req) <> FUSE_FORGET ->
  exists w' calls hdr payload,
    handle_fuse_request req w = Some (true, w') /\
    trace w' = trace w ++ calls ++ [Writev (header_segment hdr :: payload)] /\
    forallb is_upcall calls = true /\
    (length calls <= 2)%nat /\
    oh_unique hdr = reply_unique req /\
    oh_error hdr ∈ errors_of (ih_opcode (header req)) /\
    (calls = [] -> java w' = java w) /\
    (asks_provider (ih_opcode (header req)) = false -> calls = []).
Proof.
  intros Hnot.
  destruct (opcode_cases (ih_opcode (header req)))
    as [Hop|[Hop|[Hop|[Hop|[Hop|[Hop|[Hop|[Hop|Hop]]]]]]]].
  - (* LOOKUP *)
    destruct (decide (ih_nodeid (header req) = 1)) as [Hroot|Hroot];
      [destruct (decide (atoi (as_c_string (data req)) = 0)) as [Hn|Hn]|].
    + eexists _, [], _, _. rewrite (lookup_rejected _ _ Hop) by tauto.
      rewrite Hop. repeat (split; [first [done | set_solver]|]). done.
    + rewrite (lookup_forwarded _ _ Hop Hroot Hn), Hop.
      destruct (to_int64 _ <? 0);
        eexists _, [_], _, _;
        repeat (split; [first [done | set_solver]|]); done.
    + eexists _, [], _, _. rewrite (lookup_rejected _ _ Hop) by tauto.
      rewrite Hop. repeat (split; [first [done | set_solver]|]). done.
  - (* INIT *)
    destruct (decide (ii_major (as_fuse_init_in (data req))
                      = FUSE_KERNEL_VERSION)) as [Hmajor|Hmajor];
      [destruct (decide (6 <= ii_minor (as_fuse_init_in (data req))))
         as [Hminor|Hminor]|].
    + eexists _, [], _, _. rewrite (init_accepted _ _ Hop Hmajor Hminor).
      rewrite Hop. repeat (split; [first [done | set_solver]|]). done.
    + eexists _, [], _, _. rewrite (init_refused _ _ Hop) by (right; lia).
      rewrite Hop. repeat (split; [first [done | set_solver]|]). done.
    + eexists _, [], _, _. rewrite (init_refused _ _ Hop) by by left.
      rewrite Hop. repeat (split; [first [done | set_solver]|]). done.
  - (* GETATTR *)
    destruct (decide (ih_nodeid (header req) = 1)) as [Hroot|Hroot].
    + eexists _, [], _, _. rewrite (getattr_root _ _ Hop Hroot).
      rewrite Hop. repeat (split; [first [done | set_solver]|]). done.
    + rewrite (getattr_file _ _ Hop Hroot), Hop.
      destruct (to_int64 _ <? 0);
        eexists _, [_], _, _;
        repeat (split; [first [done | set_solver]|]); done.
  - done.
  - (* OPEN *)
    destruct (decide (Z.of_nat (size (handles_ (app w))) < NUM_MAX_HANDLES))
      as [Hroom|Hfull].
    + destruct (open_below_capacity _ w Hop Hroom)
        as (token & counter & Hnext & Hfree & Hrun).
      eexists _, [], _, _. rewrite Hrun, Hop.
      repeat (split; [first [done | set_solver]|]). done.
    + eexists _, [], _, _. rewrite (open_full _ _ Hop) by lia.
      rewrite Hop. repeat (split; [first [done | set_solver]|]). done.
  - (* READ *)
    destruct (decide (ri_size (as_fuse_read_in (data req)) <= MAX_READ))
      as [Hsize|Hsize];
      [destruct (handles_ (app w)
                 !! to_uint32 (ri_fh (as_fuse_read_in (data req))))
         as [inode|] eqn:Hfh|].
    + rewrite (read_live _ _ _ Hop Hsize Hfh), Hop. unfold read_reply.
      repeat case_match;
        eexists _, [_; _], _, _;
        repeat (split; [first [done | set_solver]|]); done.
    + eexists _, [], _, _. rewrite (read_bad_handle _ _ Hop Hsize Hfh).
      rewrite Hop. repeat (split; [first [done | set_solver]|]). done.
    + eexists _, [], _, _. rewrite (read_too_large _ _ Hop) by lia.
      rewrite Hop. repeat (split; [first [done | set_solver]|]). done.
  - (* RELEASE *)
    eexists _, [], _, _. rewrite (release_run _ _ Hop), Hop.
    repeat (split; [first [done | set_solver]|]). done.
  - (* FLUSH *)
    eexists _, [], _, _. rewrite (flush_run _ _ Hop), Hop.
    repeat (split; [first [done | set_solver]|]). done.
  - (* anything else *)
    eexists _, [], _, _. rewrite (unsupported_run _ _ Hop).
    rewrite (errors_of_unsupported _ Hop).
    repeat (split; [first [done | set_solver]|]). done.
Qed.
End Replies.

(** X1.  Every request other than FORGET is answered exactly once, and the
    reply is the last thing the request does; FORGET is not answered. *)
Theorem one_reply_per_request {P} `{ContentProvider P} (req : FuseRequest)
    (w : World P) :
  exists continue w',
    handle_fuse_request req w = Some (continue, w') /\
    count_replies (since w w')
    = (if ih_opcode (header req) =? FUSE_FORGET then 0%nat else 1%nat) /\
    (ih_opcode (header req) <> FUSE_FORGET ->
     exists vec, last (since w w') = Some (Writev vec)).
Proof.
  destruct (Z.eqb_spec (ih_opcode (header req)) FUSE_FORGET) as [Hop|Hop].
  - exists false, w. rewrite (forget_run _ _ Hop).
    split; [done|]. unfold since. rewrite drop_all. by split.
  - destruct (request_reply req w Hop)
      as (w' & calls & hdr & payload & Hrun & Htrace & Hcalls & _).
    exists true, w'. split; [done|].
    assert (since w w' = calls ++ [Writev (header_segment hdr :: payload)])
      as -> by (unfold since; by rewrite Htrace, drop_app_length).
    split; [|intros _; eexists; apply last_snoc].
    unfold count_replies. rewrite filter_app, length_app.
    assert (filter (fun e => negb (is_upcall e)) calls = []) as ->.
    { clear -Hcalls. induction calls as [|e calls IH]; [done|].
      cbn in Hcalls. apply andb_true_iff in Hcalls as [He Hrest].
      rewrite filter_cons, He. cbn. by apply IH. }
    done.
Qed.

(** X2.  The reply to a request whose [unique] is below [2^31] carries
    that [unique]. *)
Theorem reply_echoes_unique {P} `{ContentProvider P} (req : FuseRequest)
    (w : World P) :
  ih_opcode (header req) <> FUSE_FORGET ->
  ih_unique (header req) < 2 ^ 31 ->
  exists w' hdr payload,
    handle_fuse_request req w = Some (true, w') /\
    last (since w w') = Some (Writev (header_segment hdr :: payload)) /\
    oh_unique hdr = ih_unique (header req).
Proof.
  intros Hop Hsmall.
  destruct (request_reply req w Hop)
    as (w' & calls & hdr & payload & Hrun & Htrace & _ & _ & Hunique & _).
  exists w', hdr, payload. split; [done|]. split.
  - unfold since. rewrite Htrace, drop_app_length. apply last_snoc.
  - rewrite Hunique. by apply reply_unique_small.
Qed.

Lemma reply_echoes_unique_witness :
  exists w' hdr payload,
    handle_fuse_request lookup_42 (session one_file) = Some (true, w') /\
    last (since (session one_file) w')
    = Some (Writev (header_segment hdr :: payload)) /\
    oh_unique hdr = ih_unique (header lookup_42).
Proof.
  apply (reply_echoes_unique lookup_42 (session one_file)).
  - vm_compute. discriminate.
  - vm_compute. reflexivity.
Defined.

(** X3.  The reply codes: LOOKUP and GETATTR fail with [ENOENT] only, OPEN
    with [EMFILE] only, READ with [EINVAL], [EBADF] or [EIO] only, INIT
    with -1 only; RELEASE and FLUSH never fail; any other operation is
    answered with [ENOSYS].  A reply whose code is not 0 has no payload. *)
Theorem reply_codes {P} `{ContentProvider P} (req : FuseRequest)
    (w : World P) :
  ih_opcode (header req) <> FUSE_FORGET ->
  exists w' hdr payload,
    handle_fuse_request req w = Some (true, w') /\
    last (since w w') = Some (Writev (header_segment hdr :: payload)) /\
    oh_error hdr ∈ errors_of (ih_opcode (header req)) /\
    (oh_error hdr <> 0 -> payload = []).
Proof.
  intros Hop.
  destruct (request_reply req w Hop)
    as (w' & calls & hdr & payload & Hrun & Htrace & _ & _ & _ & Herr & _).
  exists w', hdr, payload. split; [done|].
  assert (since w w' = calls ++ [Writev (header_segment hdr :: payload)])
    as Hsince by (unfold since; by rewrite Htrace, drop_app_length).
  split; [rewrite Hsince; apply last_snoc|]. split; [done|].
  intros Hcode.
  pose proof (request_replies_framed _ _ _ _ Hrun) as Hframed.
  rewrite Hsince, forallb_app in Hframed.
  apply andb_true_iff in Hframed as [_ Hframed]. cbn in Hframed.
  destruct payload as [|seg [|seg' rest]]; [done | | done].
  rewrite andb_true_r in Hframed.
  repeat (apply andb_true_iff in Hframed as [Hframed ?]).
  by destruct Hcode; apply Z.eqb_eq.
Qed.

Lemma reply_codes_witness :
  exists w' hdr payload,
    handle_fuse_request (read_0 2 4) (session one_file) = Some (true, w') /\
    last (since (session one_file) w')
    = Some (Writev (header_segment hdr :: payload)) /\
    oh_error hdr ∈ errors_of (ih_opcode (header (read_0 2 4))) /\
    (oh_error hdr <> 0 -> payload = []).
Proof.
  apply (reply_codes (read_0 2 4) (session one_file)).
  vm_compute. discriminate.
Defined.

(** X4.  Only LOOKUP, GETATTR and READ go to the provider: any other
    request leaves the provider as it was and makes no upcall. *)
Theorem provider_untouched {P} `{ContentProvider P} (req : FuseRequest)
    (w : World P) :
  asks_provider (ih_opcode (header req)) = false ->
  exists continue w',
    handle_fuse_request req w = Some (continue, w') /\
    java w' = java w /\
    forallb (fun e => negb (is_upcall e)) (since w w') = true.
Proof.
  intros Hasks.
  destruct (decide (ih_opcode (header req) = FUSE_FORGET)) as [Hop|Hop].
  - exists false, w. rewrite (forget_run _ _ Hop).
    split; [done|]. split; [done|]. unfold since. by rewrite drop_all.
  - destruct (request_reply req w Hop)
      as (w' & calls & hdr & payload & Hrun & Htrace & _ & _ & _ & _
          & Hjava & Hnone).
    specialize (Hnone Hasks). subst calls.
    exists true, w'. split; [done|]. split; [by apply Hjava|].
    unfold since. by rewrite Htrace, drop_app_length.
Qed.

Lemma provider_untouched_witness :
  exists continue w',
    handle_fuse_request open_5 (session one_file) = Some (continue, w') /\
    java w' = java (session one_file) /\
    forallb (fun e => negb (is_upcall e)) (since (session one_file) w') = true.
Proof.
  apply (provider_untouched open_5 (session one_file)).
  vm_compute. reflexivity.
Defined.

(** X5.  Only OPEN and RELEASE change the [AppFuse] object: any other
    request leaves the handle table and the counter as they were. *)
Theorem only_open_and_release_change_handles {P} `{ContentProvider P}
    (req : FuseRequest) (w : World P) :
  ih_opcode (header req) <> FUSE_OPEN ->
  ih_opcode (header req) <> FUSE_RELEASE ->
  exists continue w',
    handle_fuse_request req w = Some (continue, w') /\ app w' = app w.
Proof.
  intros Hopen Hrelease.
  destruct (request_effect req w)
    as (c & w' & new & Hrun & _ & _ & _ & Heffect).
  exists c, w'. split; [done|].
  by destruct Heffect as [[? _]|[(? & _)|(? & _)]].
Qed.

Lemma only_open_and_release_change_handles_witness :
  exists continue w',
    handle_fuse_request (read_0 2 4) opened_5 = Some (continue, w') /\
    app w' = app opened_5.
Proof.
  apply (only_open_and_release_change_handles (read_0 2 4) opened_5).
  - vm_compute. discriminate.
  - vm_compute. discriminate.
Defined.

(** ** GETATTR and LOOKUP *)

(** X6.  GETATTR of node 1 is answered, without an upcall, with a
    directory of mode 0777 and size 0.  GETATTR of any other node asks the
    provider for the size of the node id converted to [int]; a negative
    size gives [ENOENT], any other a regular file of mode 0777 and that
    size, with [ino] the node id of the request.  The attributes are valid
    for 10 seconds, and the session is left as it was. *)
Theorem getattr_reply {P} `{ContentProvider P} (req : FuseRequest)
    (w : World P) :
  ih_opcode (header req) = FUSE_GETATTR ->
  let nodeid := ih_nodeid (header req) in
  let answer := getFileSize (to_int32 nodeid) (java w) in
  let attr_out mode size :=
    AttrOut {| ao_attr_valid := 10;
               ao_attr := {| a_ino := nodeid; a_size := size;
                             a_mode := mode |} |} in
  exists w',
    handle_fuse_request req w = Some (true, w') /\ app w' = app w /\
    (nodeid = 1 ->
     java w' = java w /\
     since w w' = [with_payload (reply_unique req)
                     (attr_out (Z.lor S_IFDIR 0x1ff) 0)
                     sizeof_fuse_attr_out]) /\
    (nodeid <> 1 -> to_int64 answer.1 < 0 ->
     since w w' = [CallGetFileSize (to_int32 nodeid);
                   header_only (- ENOENT) (reply_unique req)]) /\
    (nodeid <> 1 -> 0 <= to_int64 answer.1 ->
     since w w' = [CallGetFileSize (to_int32 nodeid);
                   with_payload (reply_unique req)
                     (attr_out (Z.lor S_IFREG 0x1ff) (to_int64 answer.1))
                     sizeof_fuse_attr_out]).
Proof.
  intros Hop nodeid answer attr_out.
  destruct (decide (nodeid = 1)) as [Hroot|Hroot].
  - eexists. rewrite (getattr_root _ _ Hop Hroot).
    split; [done|]. split; [done|].
    split; [|by split]. intros _. split; [done|].
    unfold attr_out. rewrite Hroot. apply (since_after w (app w)).
  - eexists. rewrite (getattr_file _ _ Hop Hroot).
    split; [done|]. split; [done|]. split; [done|].
    rewrite since_app. fold nodeid answer.
    split; intros _ Hsize.
    + by assert ((to_int64 answer.1 <? 0) = true) as -> by by apply Z.ltb_lt.
    + assert ((to_int64 answer.1 <? 0) = false) as -> by by apply Z.ltb_ge.
      unfold attr_out. rewrite to_uint64_small; [done|].
      unfold to_int64 in *.
      pose proof (Z.mod_pos_bound (answer.1 + 2 ^ 63) (2 ^ 64) ltac:(lia)).
      lia.
Qed.

Lemma getattr_reply_witness :
  exists w',
    handle_fuse_request getattr_5 (session one_file) = Some (true, w') /\
    since (session one_file) w'
    = [CallGetFileSize 5;
       with_payload 12
         (AttrOut {| ao_attr_valid := 10;
                     ao_attr := {| a_ino := 5; a_size := 10;
                                   a_mode := 0x81ff |} |})
         104].
Proof.
  destruct (getattr_reply getattr_5 (session one_file) eq_refl)
    as (w' & Hrun & _ & _ & _ & Hfile).
  exists w'. split; [exact Hrun|].
  apply Hfile; vm_compute; discriminate.
Defined.

(** The node id goes to the provider as an [int]: GETATTR of node
    [2^32 + 5] reports the size of inode 5 under [ino] [2^32 + 5]. *)
Example getattr_wide_nodeid :
  outcome (handle_fuse_request
             (Kernel.request FUSE_GETATTR 12 (2 ^ 32 + 5) []))
          (session one_file)
  = Some (true, [],
          [CallGetFileSize 5;
           with_payload 12
             (AttrOut {| ao_attr_valid := 10;
                         ao_attr := {| a_ino := 2 ^ 32 + 5; a_size := 10;
                                       a_mode := 0x81ff |} |})
             104]).
Proof. vm_compute. reflexivity. Qed.

(** X7.  A LOOKUP under node 1 of a name for which [atoi], that is
    [(int) strtol], returns [n], not 0, is answered from the provider's
    size of [n] (-1 for a name above [LONG_MAX], see
    [lookup_beyond_long]): [ENOENT] when it is
    negative, otherwise an entry whose node id and [ino] are [n]
    (converted to 64 bits), a regular file of mode 0777 and that size,
    valid for 10 seconds.  The session is left as it was. *)
Theorem lookup_reply {P} `{ContentProvider P} (req : FuseRequest)
    (w : World P) :
  ih_opcode (header req) = FUSE_LOOKUP ->
  ih_nodeid (header req) = 1 ->
  let n := atoi (as_c_string (data req)) in
  n <> 0 ->
  let answer := getFileSize n (java w) in
  exists w',
    handle_fuse_request req w = Some (true, w') /\ app w' = app w /\
    java w' = answer.2 /\
    (to_int64 answer.1 < 0 ->
     since w w' = [CallGetFileSize n;
                   header_only (- ENOENT) (reply_unique req)]) /\
    (0 <= to_int64 answer.1 ->
     since w w'
     = [CallGetFileSize n;
        with_payload (reply_unique req)
          (EntryOut {| eo_nodeid := to_uint64 n;
                       eo_entry_valid := 10;
                       eo_attr_valid := 10;
                       eo_attr := {| a_ino := to_uint64 n;
                                     a_size := to_int64 answer.1;
                                     a_mode := Z.lor S_IFREG 0x1ff |} |})
          sizeof_fuse_entry_out]).
Proof.
  intros Hop Hroot n Hn answer.
  eexists. rewrite (lookup_forwarded _ _ Hop Hroot Hn).
  split; [done|]. split; [done|]. split; [done|].
  rewrite since_app. fold n answer. split; intros Hsize.
  - by assert ((to_int64 answer.1 <? 0) = true) as -> by by apply Z.ltb_lt.
  - assert ((to_int64 answer.1 <? 0) = false) as -> by by apply Z.ltb_ge.
    rewrite (to_uint64_small (to_int64 answer.1)); [done|].
    unfold to_int64 in *.
    pose proof (Z.mod_pos_bound (answer.1 + 2 ^ 63) (2 ^ 64) ltac:(lia)).
    lia.
Qed.

Lemma lookup_reply_witness :
  exists w',
    handle_fuse_request lookup_42 (session one_file) = Some (true, w') /\
    since (session one_file) w'
    = [CallGetFileSize 42; header_only (- ENOENT) 2].
Proof.
  destruct (lookup_reply lookup_42 (session one_file) eq_refl eq_refl)
    as (w' & Hrun & _ & _ & Hunknown & _).
  { vm_compute. discriminate. }
  exists w'. split; [exact Hrun|].
  apply Hunknown. vm_compute. reflexivity.
Defined.

(** ** READ *)

(** X8.  A READ of at most 128 KiB on a live handle asks the provider for
    the size of the handle's node, then for [n] bytes at the offset of the
    request.  An array of exactly [n] bytes is the payload of a successful
    reply (a reply of the header alone when [n] is 0); no array, or one of
    another length, gives [EIO].  The handle table is left as it was. *)
Theorem read_served {P} `{ContentProvider P} (read : FuseRequest)
    (w : World P) (inode : Z) :
  ih_opcode (header read) = FUSE_READ ->
  ri_size (as_fuse_read_in (data read)) <= MAX_READ ->
  handles_ (app w) !! to_uint32 (ri_fh (as_fuse_read_in (data read)))
  = Some inode ->
  let in_ := as_fuse_read_in (data read) in
  let size_answer := getFileSize (to_int32 inode) (java w) in
  let n := read_size (ri_size in_) (to_int64 size_answer.1) (ri_offset in_) in
  let bytes_answer :=
    getObjectBytes (to_int32 inode) (to_int64 (ri_offset in_)) n
                   size_answer.2 in
  exists w' reply,
    handle_fuse_request read w = Some (true, w') /\
    app w' = app w /\ java w' = bytes_answer.2 /\
    since w w' = [CallGetFileSize (to_int32 inode);
                  CallGetObjectBytes (to_int32 inode)
                                     (to_int64 (ri_offset in_)) n;
                  reply] /\
    (forall bytes,
       bytes_answer.1 = Some bytes -> Z.of_nat (length bytes) = n ->
       reply = if n =? 0 then header_only 0 (reply_unique read)
               else with_payload (reply_unique read) (ReadBytes bytes) n) /\
    (bytes_answer.1 = None -> reply = header_only (- EIO) (reply_unique read)) /\
    (forall bytes,
       bytes_answer.1 = Some bytes -> Z.of_nat (length bytes) <> n ->
       reply = header_only (- EIO) (reply_unique read)).
Proof.
  intros Hread Hsize Hfh in_ size_answer n bytes_answer.
  eexists _, _. rewrite (read_live _ _ _ Hread Hsize Hfh).
  split; [done|]. split; [done|]. split; [done|].
  split; [by rewrite since_app|]. fold in_ size_answer n bytes_answer.
  unfold read_reply. split; [|split].
  - intros bytes -> Hlen. by rewrite Hlen, Z.eqb_refl.
  - by intros ->.
  - intros bytes -> Hlen.
    by destruct (Z.eqb_spec (Z.of_nat (length bytes)) n).
Qed.

Lemma read_served_witness :
  exists w' reply,
    handle_fuse_request (read_0 2 4) opened_5 = Some (true, w') /\
    since opened_5 w' = [CallGetFileSize 5; CallGetObjectBytes 5 2 4; reply] /\
    reply = with_payload 4 (ReadBytes [x43; x44; x45; x46]) 4.
Proof.
  destruct (read_served (read_0 2 4) opened_5 5 eq_refl)
    as (w' & reply & Hrun & _ & _ & Hsince & Hserved & _).
  { vm_compute. discriminate. }
  { vm_compute. reflexivity. }
  exists w', reply. split; [exact Hrun|]. split; [exact Hsince|].
  apply (Hserved [x43; x44; x45; x46]); vm_compute; reflexivity.
Defined.

(** X9.  What a READ copies into the request buffer fits there: the size
    asked of the provider is at most the size requested, hence at most
    [MAX_READ], and the room behind the input header is larger. *)
Theorem read_fits_buffer {P} `{ContentProvider P} (read : FuseRequest)
    (w : World P) (inode : Z) :
  ih_opcode (header read) = FUSE_READ ->
  ri_size (as_fuse_read_in (data read)) <= MAX_READ ->
  handles_ (app w) !! to_uint32 (ri_fh (as_fuse_read_in (data read)))
  = Some inode ->
  exists w' n,
    handle_fuse_request read w = Some (true, w') /\
    nth_error (since w w') 1
    = Some (CallGetObjectBytes (to_int32 inode)
              (to_int64 (ri_offset (as_fuse_read_in (data read)))) n) /\
    0 <= n <= ri_size (as_fuse_read_in (data read)) /\
    n <= MAX_READ /\ MAX_READ < reply_room /\
    forall hdr bytes size,
      last (since w w')
      = Some (Writev [header_segment hdr;
                      {| iov_base := AtData (ReadBytes bytes);
                         iov_len := size |}]) ->
      Z.of_nat (length bytes) = n /\ size = n.
Proof.
  intros Hread Hsize Hfh.
  pose proof (load_u32_range (data read) 16) as Hrange.
  change (load_u32 (data read) 16)
    with (ri_size (as_fuse_read_in (data read))) in Hrange.
  eexists _, _. rewrite (read_live _ _ _ Hread Hsize Hfh).
  split; [done|]. rewrite since_app. split; [done|].
  match goal with
  | |- context [read_size ?a ?b ?c] =>
      pose proof (read_size_le a b c Hrange) as Hn;
      set (n := read_size a b c) in *
  end.
  split; [done|]. split; [lia|]. split; [by vm_compute|].
  intros hdr bytes size. cbn [last]. unfold read_reply.
  repeat case_match; try (intros [=]; fail);
    unfold with_payload, header_only; intros Heq; simplify_eq.
  split; [by apply Z.eqb_eq | done].
Qed.

Lemma read_fits_buffer_witness :
  exists w' n,
    handle_fuse_request (read_0 2 4) opened_5 = Some (true, w') /\
    nth_error (since opened_5 w') 1
    = Some (CallGetObjectBytes (to_int32 5)
              (to_int64 (ri_offset (as_fuse_read_in (data (read_0 2 4))))) n) /\
    0 <= n <= ri_size (as_fuse_read_in (data (read_0 2 4))) /\
    n <= MAX_READ /\ MAX_READ < reply_room /\
    forall hdr bytes size,
      last (since opened_5 w')
      = Some (Writev [header_segment hdr;
                      {| iov_base := AtData (ReadBytes bytes);
                         iov_len := size |}]) ->
      Z.of_nat (length bytes) = n /\ size = n.
Proof.
  apply (read_fits_buffer (read_0 2 4) opened_5 5 eq_refl).
  - vm_compute. discriminate.
  - vm_compute. reflexivity.
Defined.

(** ** Handles over time *)

Section Handles.
Context {P : Type} `{ContentProvider P}.
Implicit Types (req : FuseRequest) (w : World P).

(** A live handle keeps its node through any request that does not
    release it. *)
Lemma request_keeps_present req w continue w' token inode :
  handle_fuse_request req w = Some (continue, w') ->
  handles_ (app w) !! token = Some inode ->
  releases token req = false ->
  handles_ (app w') !! token = Some inode.
Proof.
  intros Hrun Hlive Hkeep.
  destruct (request_effect req w)
    as (c & w1 & new & Hrun' & _ & _ & _ & Heffect).
  rewrite Hrun in Hrun'. injection Hrun' as <- <-.
  destruct Heffect
    as [[-> _]|[(Hop & -> & _)|(_ & _ & t & counter & _ & Hfree & -> & _)]];
    cbn [handles_].
  - done.
  - unfold releases in Hkeep. rewrite Hop in Hkeep. cbn in Hkeep.
    apply Z.eqb_neq in Hkeep. by rewrite lookup_delete_ne.
  - rewrite lookup_insert_ne; [done|]. by intros ->; rewrite Hlive in Hfree.
Qed.

Lemma serve_keeps_present reqs w w' token inode :
  serve reqs w = Some (tt, w') ->
  handles_ (app w) !! token = Some inode ->
  forallb (fun req => negb (releases token req)) reqs = true ->
  handles_ (app w') !! token = Some inode.
Proof.
  revert w. induction reqs as [|req reqs IH]; intros w; cbn.
  - by intros [= <-].
  - unfold bind.
    destruct (handle_fuse_request req w) as [[c w1]|] eqn:Hrun; [|done].
    intros Hserve Hlive [Hreq Hrest]%andb_true_iff.
    apply (IH _ Hserve); [|done].
    apply (request_keeps_present _ _ _ _ _ _ Hrun Hlive).
    by apply negb_true_iff.
Qed.

(** A request that is not an OPEN leaves the counter alone. *)
Lemma request_keeps_counter_value req w continue w' :
  handle_fuse_request req w = Some (continue, w') ->
  is_open req = false ->
  handle_counter_ (app w') = handle_counter_ (app w).
Proof.
  intros Hrun Hnot. apply Z.eqb_neq in Hnot.
  destruct (request_effect req w)
    as (c & w1 & new & Hrun' & _ & _ & _ & Heffect).
  rewrite Hrun in Hrun'. injection Hrun' as <- <-.
  by destruct Heffect as [[-> _]|[(_ & -> & _)|(? & _)]].
Qed.

Lemma serve_keeps_counter_value reqs w w' :
  serve reqs w = Some (tt, w') ->
  forallb (fun req => negb (is_open req)) reqs = true ->
  handle_counter_ (app w') = handle_counter_ (app w).
Proof.
  revert w. induction reqs as [|req reqs IH]; intros w; cbn.
  - by intros [= <-].
  - unfold bind.
    destruct (handle_fuse_request req w) as [[c w1]|] eqn:Hrun; [|done].
    intros Hserve [Hreq Hrest]%andb_true_iff.
    rewrite (IH _ Hserve Hrest).
    apply (request_keeps_counter_value _ _ _ _ Hrun).
    by apply negb_true_iff.
Qed.

(** The handle [next_handle] returns is the first free one at or after
    the counter, going round at [2^32], and the counter is left one past
    it. *)
Lemma next_handle_first_free steps (handles : gmap Z Z) counter handle
    counter' :
  0 <= counter < 2 ^ 32 ->
  next_handle steps handles counter = Some (handle, counter') ->
  exists k,
    0 <= k < Z.of_nat steps /\
    handle = (counter + k) mod 2 ^ 32 /\
    (forall j, 0 <= j < k ->
               is_Some (handles !! ((counter + j) mod 2 ^ 32))) /\
    counter' = to_uint32 (handle + 1).
Proof.
  revert counter. induction steps as [|n IH]; intros counter Hc; simpl.
  - discriminate.
  - destruct (decide (is_Some (handles !! counter))) as [Hin|Hout].
    + intros Hnext.
      destruct (IH _ (to_uint32_range _) Hnext) as (k & Hk & -> & Hbefore & ->).
      exists (k + 1). split; [lia|]. unfold to_uint32.
      rewrite Zplus_mod_idemp_l.
      replace (counter + 1 + k) with (counter + (k + 1)) by lia.
      split; [done|]. split; [|done].
      intros j Hj. destruct (decide (j = 0)) as [->|Hj0].
      * rewrite Z.add_0_r, Z.mod_small by lia. done.
      * specialize (Hbefore (j - 1) ltac:(lia)).
        unfold to_uint32 in Hbefore.
        rewrite Zplus_mod_idemp_l in Hbefore.
        by replace (counter + 1 + (j - 1)) with (counter + j) in Hbefore
          by lia.
    + intros [= <- <-]. exists 0. split; [lia|].
      rewrite Z.add_0_r, Z.mod_small by lia.
      split; [done|]. split; [intros j ?; lia | done].
Qed.
End Handles.

(** X10.  A handle stays mapped to the node it was opened for through
    every sequence of requests that has no RELEASE of it, and a READ on it
    afterwards asks the provider about that node. *)
Theorem handle_stays_until_released {P} `{ContentProvider P}
    (reqs : list FuseRequest) (w : World P) (token inode : Z) :
  handles_ (app w) !! token = Some inode ->
  forallb (fun req => negb (releases token req)) reqs = true ->
  exists w',
    serve reqs w = Some (tt, w') /\
    handles_ (app w') !! token = Some inode /\
    forall read,
      ih_opcode (header read) = FUSE_READ ->
      ri_size (as_fuse_read_in (data read)) <= MAX_READ ->
      to_uint32 (ri_fh (as_fuse_read_in (data read))) = token ->
      exists w'',
        handle_fuse_request read w' = Some (true, w'') /\
        head (since w' w'') = Some (CallGetFileSize (to_int32 inode)).
Proof.
  intros Hlive Hkeep.
  destruct (serve_total reqs w) as (w' & Hserve).
  pose proof (serve_keeps_present _ _ _ _ _ Hserve Hlive Hkeep) as Hlive'.
  exists w'. split; [done|]. split; [done|].
  intros read Hread Hsize Hfh. rewrite <- Hfh in Hlive'.
  eexists. rewrite (read_live _ _ _ Hread Hsize Hlive').
  split; [done|]. by rewrite since_app.
Qed.

Lemma handle_stays_until_released_witness :
  exists w',
    serve [lookup_42; open_root; read_0 2 4; flush_5] opened_5
    = Some (tt, w') /\
    handles_ (app w') !! 0 = Some 5 /\
    forall read,
      ih_opcode (header read) = FUSE_READ ->
      ri_size (as_fuse_read_in (data read)) <= MAX_READ ->
      to_uint32 (ri_fh (as_fuse_read_in (data read))) = 0 ->
      exists w'',
        handle_fuse_request read w' = Some (true, w'') /\
        head (since w' w'') = Some (CallGetFileSize (to_int32 5)).
Proof.
  apply (handle_stays_until_released
           [lookup_42; open_root; read_0 2 4; flush_5] opened_5 0 5).
  - vm_compute. reflexivity.
  - vm_compute. reflexivity.
Defined.

(** X11.  The handle an OPEN is answered with is the first value, from the
    counter on and going round at [2^32], that is not a live handle:
    every value before it is live.  The counter is left one past it. *)
Theorem open_takes_first_free_handle {P} `{ContentProvider P}
    (req : FuseRequest) (w : World P) :
  ih_opcode (header req) = FUSE_OPEN ->
  Z.of_nat (size (handles_ (app w))) < NUM_MAX_HANDLES ->
  0 <= handle_counter_ (app w) < 2 ^ 32 ->
  exists k token w',
    handle_fuse_request req w = Some (true, w') /\
    since w w' = [with_payload (reply_unique req)
                    (OpenOut {| oo_fh := token |}) sizeof_fuse_open_out] /\
    0 <= k <= Z.of_nat (size (handles_ (app w))) /\
    token = (handle_counter_ (app w) + k) mod 2 ^ 32 /\
    (forall j, 0 <= j < k ->
       is_Some (handles_ (app w)
                !! ((handle_counter_ (app w) + j) mod 2 ^ 32))) /\
    handles_ (app w) !! token = None /\
    handle_counter_ (app w') = (token + 1) mod 2 ^ 32.
Proof.
  intros Hop Hroom Hcounter.
  destruct (open_below_capacity _ w Hop Hroom)
    as (token & counter & Hnext & Hfree & Hrun).
  destruct (next_handle_first_free _ _ _ _ _ Hcounter Hnext)
    as (k & Hk & Htoken & Hbefore & Hcounter').
  eexists k, token, _. split; [exact Hrun|].
  split; [apply since_after|]. split; [lia|]. split; [done|].
  split; [done|]. split; [done|].
  cbn [after with_app app handle_counter_]. by rewrite Hcounter'.
Qed.

Lemma open_takes_first_free_handle_witness :
  exists k token w',
    handle_fuse_request open_root opened_5 = Some (true, w') /\
    since opened_5 w'
    = [with_payload (reply_unique open_root)
         (OpenOut {| oo_fh := token |}) sizeof_fuse_open_out] /\
    0 <= k <= Z.of_nat (size (handles_ (app opened_5))) /\
    token = (handle_counter_ (app opened_5) + k) mod 2 ^ 32 /\
    (forall j, 0 <= j < k ->
       is_Some (handles_ (app opened_5)
                !! ((handle_counter_ (app opened_5) + j) mod 2 ^ 32))) /\
    handles_ (app opened_5) !! token = None /\
    handle_counter_ (app w') = (token + 1) mod 2 ^ 32.
Proof.
  apply (open_takes_first_free_handle open_root opened_5).
  - reflexivity.
  - vm_compute. reflexivity.
  - vm_compute. split; [discriminate | reflexivity].
Defined.

(** X12.  The handle of one OPEN is not the handle of the next OPEN,
    whatever was released in between: the counter has moved past it and
    comes back to it only after [2^32] steps. *)
Theorem next_open_takes_another_handle {P} `{ContentProvider P}
    (open1 open2 : FuseRequest) (reqs : list FuseRequest) (w : World P) :
  ih_opcode (header open1) = FUSE_OPEN ->
  ih_opcode (header open2) = FUSE_OPEN ->
  forallb (fun req => negb (is_open req)) reqs = true ->
  0 <= handle_counter_ (app w) < 2 ^ 32 ->
  Z.of_nat (size (handles_ (app w))) < NUM_MAX_HANDLES ->
  exists token w1 w2,
    handle_fuse_request open1 w = Some (true, w1) /\
    since w w1 = [with_payload (reply_unique open1)
                    (OpenOut {| oo_fh := token |}) sizeof_fuse_open_out] /\
    serve reqs w1 = Some (tt, w2) /\
    (Z.of_nat (size (handles_ (app w2))) < NUM_MAX_HANDLES ->
     exists token' w3,
       handle_fuse_request open2 w2 = Some (true, w3) /\
       since w2 w3 = [with_payload (reply_unique open2)
                        (OpenOut {| oo_fh := token' |})
                        sizeof_fuse_open_out] /\
       token' <> token).
Proof.
  intros Hop1 Hop2 Hnone Hcounter Hroom.
  destruct (open_below_capacity _ w Hop1 Hroom)
    as (token & counter & Hnext & Hfree & Hrun).
  destruct (next_handle_first_free _ _ _ _ _ Hcounter Hnext)
    as (k & Hk & Htoken & _ & Hcounter').
  match type of Hrun with _ = Some (_, ?x) => set (w1 := x) in * end.
  destruct (serve_total reqs w1) as (w2 & Hserve).
  exists token, w1, w2. split; [done|]. split; [apply since_after|].
  split; [done|]. intros Hroom2.
  pose proof (serve_keeps_counter_value _ _ _ Hserve Hnone) as Hc2.
  change (handle_counter_ (app w1)) with counter in Hc2.
  destruct (open_below_capacity _ w2 Hop2 Hroom2)
    as (token' & counter2 & Hnext2 & Hfree2 & Hrun2).
  assert (0 <= token < 2 ^ 32) as Htok
    by (rewrite Htoken; apply Z.mod_pos_bound; lia).
  assert (0 <= handle_counter_ (app w2) < 2 ^ 32) as Hrange2
    by (rewrite Hc2, Hcounter'; apply to_uint32_range).
  destruct (next_handle_first_free _ _ _ _ _ Hrange2 Hnext2)
    as (k' & Hk' & Htoken' & _).
  eexists token', _. split; [exact Hrun2|]. split; [apply since_after|].
  rewrite Htoken', Hc2, Hcounter'. unfold to_uint32.
  rewrite Zplus_mod_idemp_l. intros Heq.
  unfold NUM_MAX_HANDLES in Hroom2.
  pose proof (Z.div_mod (token + 1 + k') (2 ^ 32) ltac:(lia)) as Hdm.
  rewrite Heq in Hdm.
  assert (0 < (token + 1 + k') `div` 2 ^ 32) by nia.
  nia.
Qed.

Lemma next_open_takes_another_handle_witness :
  exists token w1 w2,
    handle_fuse_request open_5 (session one_file) = Some (true, w1) /\
    since (session one_file) w1
    = [with_payload (reply_unique open_5)
         (OpenOut {| oo_fh := token |}) sizeof_fuse_open_out] /\
    serve [release_0] w1 = Some (tt, w2) /\
    (Z.of_nat (size (handles_ (app w2))) < NUM_MAX_HANDLES ->
     exists token' w3,
       handle_fuse_request open_root w2 = Some (true, w3) /\
       since w2 w3 = [with_payload (reply_unique open_root)
                        (OpenOut {| oo_fh := token' |})
                        sizeof_fuse_open_out] /\
       token' <> token).
Proof.
  apply (next_open_takes_another_handle open_5 open_root [release_0]
           (session one_file)).
  - reflexivity.
  - reflexivity.
  - vm_compute. reflexivity.
  - vm_compute. split; [discriminate | reflexivity].
  - vm_compute. reflexivity.
Defined.

(** OPEN, RELEASE, OPEN: the second handle is 1, not 0 again. *)
Example open_release_open :
  outcome (serve [open_5; release_0; open_root]) (session one_file)
  = Some (tt, [(1, 1)],
          [with_payload 3 (OpenOut {| oo_fh := 0 |}) 16;
           header_only 0 6;
           with_payload 3 (OpenOut {| oo_fh := 1 |}) 16]).
Proof. vm_compute. reflexivity. Qed.

(** X13.  The search for a handle comes to an end: within one more probe
    than the table has entries it finds a value that is not a live handle,
    whatever the table and the counter are; so every request, in every
    state, is handled to its end. *)
Theorem handle_search_ends {P} `{ContentProvider P} (req : FuseRequest)
    (w : World P) :
  (Z.of_nat (size (handles_ (app w))) < 2 ^ 32 ->
   exists handle counter,
     next_handle (S (size (handles_ (app w)))) (handles_ (app w))
                 (handle_counter_ (app w)) = Some (handle, counter) /\
     handles_ (app w) !! handle = None) /\
  exists continue w', handle_fuse_request req w = Some (continue, w').
Proof.
  split.
  - intros Hsize.
    destruct (next_handle_total (handles_ (app w)) (handle_counter_ (app w))
                Hsize) as (handle & counter & Hnext).
    exists handle, counter. split; [done|].
    by apply (next_handle_free _ _ _ _ _ Hnext).
  - apply request_total.
Qed.

(** ** The loop, read by read *)

Section LoopEffects.
Context {P : Type} `{ContentProvider P}.
Implicit Types (r : DeviceRead) (device : list DeviceRead) (w : World P).

Lemma count_replies_app (l1 l2 : list Event) :
  count_replies (l1 ++ l2) = (count_replies l1 + count_replies l2)%nat.
Proof. unfold count_replies. by rewrite filter_app, length_app. Qed.

Lemma count_replies_upcalls (calls : list Event) :
  forallb is_upcall calls = true -> count_replies calls = 0%nat.
Proof.
  unfold count_replies. induction calls as [|e calls IH]; [done|].
  intros Hall. cbn in Hall. apply andb_true_iff in Hall as [He Hrest].
  rewrite filter_cons, He. cbn. by apply IH.
Qed.

(** What the loop does on a device: its result is the first verdict
    among the reads, it comes to that result whatever the session and the
    provider are, it only appends to the trace, every reply it writes is
    framed, and it writes at most one reply per read. *)
Lemma fuse_loop_effect device w :
  exists w' new,
    fuse_loop device w = Some (loop_verdict device, w') /\
    trace w' = trace w ++ new /\
    forallb framed new = true /\
    (count_replies new <= length device)%nat.
Proof.
  revert w. induction device as [|r device IH]; intros w.
  - exists w, []. cbn. by rewrite app_nil_r.
  - cbn [fuse_loop loop_verdict length]. unfold verdict.
    destruct (result r <? 0).
    { destruct (Z.eqb_spec (errno r) EINTR) as [Hintr|_].
      - rewrite Hintr. change (EINTR =? ENODEV) with false.
        destruct (IH w) as (w' & new & ? & ? & ? & ?).
        exists w', new. repeat split; first [done | lia | (cbn; lia)].
      - destruct (errno r =? ENODEV).
        + exists w, []. cbn. rewrite app_nil_r. repeat split; first [done | lia | (cbn; lia)].
        + destruct (IH w) as (w' & new & ? & ? & ? & ?).
          exists w', new. repeat split; first [done | lia | (cbn; lia)]. }
    destruct (to_size_t (result r) <? sizeof_fuse_in_header); cbn [negb andb].
    { destruct (IH w) as (w' & new & ? & ? & ? & ?).
      exists w', new. repeat split; first [done | lia | (cbn; lia)]. }
    destruct (ih_len (header {| buffer := read_buffer r |})
              =? to_size_t (result r)); cbn [negb andb].
    2: { destruct (IH w) as (w' & new & ? & ? & ? & ?).
         exists w', new. repeat split; first [done | lia | (cbn; lia)]. }
    unfold bind.
    destruct (Z.eqb_spec (ih_opcode (header {| buffer := read_buffer r |}))
                FUSE_FORGET) as [Hop|Hop].
    + rewrite (forget_run _ _ Hop). cbn [negb].
      exists w, []. cbn. rewrite app_nil_r. repeat split; first [done | lia | (cbn; lia)].
    + destruct (request_reply {| buffer := read_buffer r |} w Hop)
        as (w1 & calls & hdr & payload & Hrun & Htrace & Hcalls & _).
      rewrite Hrun. cbn [negb].
      pose proof (request_replies_framed _ _ _ _ Hrun) as Hframed.
      unfold since in Hframed. rewrite Htrace, drop_app_length in Hframed.
      destruct (IH w1) as (w' & new & Hloop & Htrace' & Hframed' & Hcount).
      exists w', ((calls ++ [Writev (header_segment hdr :: payload)]) ++ new).
      split; [done|]. split; [by rewrite Htrace', Htrace, <- !app_assoc|].
      split; [by rewrite forallb_app, Hframed, Hframed'|].
      rewrite !count_replies_app, (count_replies_upcalls _ Hcalls).
      change (count_replies [Writev (header_segment hdr :: payload)])
        with 1%nat.
      lia.
Qed.
End LoopEffects.

(** X14.  The loop passes over a read it cannot use, without a reply and
    without touching the session: a read that failed with an error other
    than [ENODEV], one that returned fewer bytes than an input header, and
    one whose header states another length than was read. *)
Theorem loop_skips_unusable_reads {P} `{ContentProvider P} (r : DeviceRead)
    (device : list DeviceRead) (w : World P) :
  (result r < 0 /\ errno r <> ENODEV) \/
  (0 <= result r < sizeof_fuse_in_header) \/
  (sizeof_fuse_in_header <= result r < 2 ^ 64 /\
   ih_len (header {| buffer := read_buffer r |}) <> result r) ->
  fuse_loop (r :: device) w = fuse_loop device w.
Proof.
  intros [[Hneg Herr]|[Hshort|[Hlong Hlen]]]; cbn [fuse_loop].
  - assert ((result r <? 0) = true) as -> by (apply Z.ltb_lt; lia).
    assert ((errno r =? ENODEV) = false) as -> by by apply Z.eqb_neq.
    by destruct (errno r =? EINTR).
  - assert ((result r <? 0) = false) as -> by (apply Z.ltb_ge; lia).
    unfold to_size_t.
    rewrite to_uint64_small by (unfold sizeof_fuse_in_header in *; lia).
    by assert ((result r <? sizeof_fuse_in_header) = true) as ->
      by (apply Z.ltb_lt; lia).
  - assert ((result r <? 0) = false) as ->
      by (apply Z.ltb_ge; unfold sizeof_fuse_in_header in *; lia).
    unfold to_size_t.
    rewrite to_uint64_small by (unfold sizeof_fuse_in_header in *; lia).
    assert ((result r <? sizeof_fuse_in_header) = false) as ->
      by (apply Z.ltb_ge; lia).
    by assert ((ih_len (header {| buffer := read_buffer r |}) =? result r)
               = false) as -> by by apply Z.eqb_neq.
Qed.

Lemma loop_skips_unusable_reads_witness :
  fuse_loop (short_read :: [forget_frame]) (session one_file)
  = fuse_loop [forget_frame] (session one_file).
Proof.
  apply (loop_skips_unusable_reads short_read [forget_frame]
           (session one_file)).
  right; left. vm_compute. split; [discriminate | reflexivity].
Defined.

(** X15.  The result of the loop is decided by the reads alone: it is
    false at the first read that fails with [ENODEV], true at the first
    FORGET frame that reaches the dispatcher, whichever comes first, and
    the loop is still reading when the device has neither.  It does not
    depend on the session or on what the provider answers, and at most
    one reply is written per read. *)
Theorem loop_result_is_first_verdict {P} `{ContentProvider P}
    (device : list DeviceRead) (w : World P) :
  exists w',
    fuse_loop device w = Some (loop_verdict device, w') /\
    (count_replies (since w w') <= length device)%nat.
Proof.
  destruct (fuse_loop_effect device w) as (w' & new & Hloop & Htrace & _ & Hn).
  exists w'. split; [done|].
  unfold since. by rewrite Htrace, drop_app_length.
Qed.

(** X16.  A whole session, from [com_android_mtp_AppFuse_start_app_fuse_loop]
    on any device: every reply written is framed, and the handle table
    ends with at most 1024 entries and a counter below [2^32]. *)
Theorem session_is_well_behaved {P} `{ContentProvider P} (self : P)
    (device : list DeviceRead) :
  exists w',
    com_android_mtp_AppFuse_start_app_fuse_loop self device
    = Some (loop_verdict device, w') /\
    forallb framed (trace w') = true /\
    Z.of_nat (size (handles_ (app w'))) <= NUM_MAX_HANDLES /\
    0 <= handle_counter_ (app w') < 2 ^ 32.
Proof.
  unfold com_android_mtp_AppFuse_start_app_fuse_loop.
  destruct (fuse_loop_effect device
              {| app := new_AppFuse; java := self; trace := [] |})
    as (w' & new & Hloop & Htrace & Hframed & _).
  exists w'. split; [done|]. split; [by rewrite Htrace|].
  assert (reachable w') as Hreach
    by (apply (fuse_loop_reachable _ _ _ _ (reachable_session self) Hloop)).
  split; [by apply reachable_bounded | by apply reachable_counter].
Qed.

(** X17.  For a frame the loop hands to the dispatcher, [data_length()] is
    the number of bytes read behind the input header. *)
Theorem data_length_of_frame (r : DeviceRead) :
  well_formed r ->
  Z.of_nat (length (read_buffer r)) = result r ->
  data_length {| buffer := read_buffer r |}
  = Z.of_nat (length (data {| buffer := read_buffer r |})).
Proof.
  intros [Hresult Hlen] Hbuf. unfold data_length, data, to_size_t.
  cbn [buffer]. rewrite Hlen, length_drop.
  unfold sizeof_fuse_in_header in *.
  rewrite to_uint64_small by lia. lia.
Qed.

Lemma data_length_of_frame_witness :
  data_length {| buffer := read_buffer forget_frame |}
  = Z.of_nat (length (data {| buffer := read_buffer forget_frame |})).
Proof.
  apply (data_length_of_frame forget_frame).
  - vm_compute. split; [split; [discriminate | reflexivity] | reflexivity].
  - vm_compute. reflexivity.
Defined.

(** ** Loading the library *)

(** X18.  When [JNI_OnLoad] returns [JNI_VERSION_1_4] the statics hold
    what the upcalls need: a global reference, not null, to the class
    "com/android/mtp/AppFuse", and the ids, not null, of its methods
    [getFileSize] of signature "(I)J" and [getObjectBytes] of signature
    "(IJI)[B"; and the last call made was the registration, which did not
    fail, of the one native method, [native_start_app_fuse_loop] of
    signature "(I)Z", on that class. *)
Theorem JNI_OnLoad_success (vm : Jni.JavaVM) (l l' : Jni.Loader) :
  Jni.JNI_OnLoad vm l = (Jni.Returns Jni.JNI_VERSION_1_4, l') ->
  exists env,
    Jni.GetEnv vm Jni.JNI_VERSION_1_4 = (Jni.JNI_OK, Some env) /\
    Jni.app_fuse_class l'
    = Jni.NewGlobalRef env (Jni.FindClass env "com/android/mtp/AppFuse") /\
    Jni.app_fuse_get_file_size l'
    = Jni.GetMethodID env (Jni.app_fuse_class l') "getFileSize" "(I)J" /\
    Jni.app_fuse_get_object_bytes l'
    = Jni.GetMethodID env (Jni.app_fuse_class l') "getObjectBytes" "(IJI)[B" /\
    Jni.app_fuse_class l' <> Jni.nullptr /\
    Jni.app_fuse_get_file_size l' <> Jni.nullptr /\
    Jni.app_fuse_get_object_bytes l' <> Jni.nullptr /\
    0 <= Jni.registerNativeMethods env "com/android/mtp/AppFuse" Jni.gMethods /\
    last (Jni.jni_calls l')
    = Some (Jni.CallRegisterNativeMethods "com/android/mtp/AppFuse"
              [ {| Jni.name := "native_start_app_fuse_loop";
                   Jni.signature := "(I)Z";
                   Jni.fnPtr := Jni.start_app_fuse_loop_fn |} ]).
Proof.
  unfold Jni.JNI_OnLoad.
  destruct (Jni.GetEnv vm Jni.JNI_VERSION_1_4) as [status [env|]];
    repeat case_match; intros Heq; try discriminate Heq.
  injection Heq as <-.
  repeat match goal with
         | Hb : (_ =? _) = false |- _ => apply Z.eqb_neq in Hb
         | Hb : (_ <? _) = false |- _ => apply Z.ltb_ge in Hb
         | Hb : negb _ = false |- _ => apply negb_false_iff, Z.eqb_eq in Hb
         end.
  exists env. subst status.
  repeat (split; [first [done | apply last_snoc]|]).
  apply last_snoc.
Qed.

Lemma JNI_OnLoad_success_witness :
  exists env,
    Jni.GetEnv (Jni.runtime ["getFileSize"; "getObjectBytes"]%string 0)
               Jni.JNI_VERSION_1_4 = (Jni.JNI_OK, Some env) /\
    Jni.app_fuse_class
      (Jni.JNI_OnLoad (Jni.runtime ["getFileSize"; "getObjectBytes"]%string 0)
                      Jni.unloaded).2
    = Jni.NewGlobalRef env (Jni.FindClass env "com/android/mtp/AppFuse").
Proof.
  destruct (JNI_OnLoad_success
              (Jni.runtime ["getFileSize"; "getObjectBytes"]%string 0)
              Jni.unloaded
              (Jni.JNI_OnLoad
                 (Jni.runtime ["getFileSize"; "getObjectBytes"]%string 0)
                 Jni.unloaded).2)
    as (env & Henv & Hclass & _).
  - vm_compute. reflexivity.
  - exists env. split; [exact Henv | exact Hclass].
Defined.

(** X19.  [JNI_OnLoad] makes at most six calls to the runtime, returns
    [JNI_VERSION_1_4] or -1 (or stops in its [assert] when [GetEnv]
    reports success without an environment), and registers the native
    method only once the class reference and both method ids are there:
    a failed lookup returns -1 before any registration. *)
Theorem JNI_OnLoad_registers_last (vm : Jni.JavaVM) (l : Jni.Loader) :
  let r := (Jni.JNI_OnLoad vm l).1 in
  let l' := (Jni.JNI_OnLoad vm l).2 in
  exists new,
    Jni.jni_calls l' = Jni.jni_calls l ++ new /\
    (length new <= 6)%nat /\
    (r = Jni.Returns Jni.JNI_VERSION_1_4 \/ r = Jni.Returns (-1) \/
     (r = Jni.AssertionFails /\
      Jni.GetEnv vm Jni.JNI_VERSION_1_4 = (Jni.JNI_OK, None))) /\
    (existsb Jni.is_registration new = true ->
     Jni.app_fuse_class l' <> Jni.nullptr /\
     Jni.app_fuse_get_file_size l' <> Jni.nullptr /\
     Jni.app_fuse_get_object_bytes l' <> Jni.nullptr) /\
    (existsb Jni.is_registration new = false -> r <> Jni.Returns Jni.JNI_VERSION_1_4).
Proof.
  unfold Jni.JNI_OnLoad.
  destruct (Jni.GetEnv vm Jni.JNI_VERSION_1_4) as [status [env|]];
    repeat case_match; cbn [fst snd];
    repeat match goal with
           | Hb : (_ =? _) = false |- _ => apply Z.eqb_neq in Hb
           | Hb : negb _ = false |- _ => apply negb_false_iff, Z.eqb_eq in Hb
           end;
    cbn [Jni.jni_calls Jni.called Jni.set_app_fuse_class
           Jni.set_app_fuse_get_file_size Jni.set_app_fuse_get_object_bytes
           Jni.app_fuse_class Jni.app_fuse_get_file_size
           Jni.app_fuse_get_object_bytes] in *;
    rewrite <- ?app_assoc; cbn [app];
    eexists; (split; [reflexivity|]); cbn;
    (split; [lia|]); subst;
    (split; [by auto|]); split; done.
Qed.
